(** * Minimax-Speech-Synthesis: batch voice synthesis pipeline

    A shallow embedding of the TypeScript sources
    - [types.ts]            (ScriptRow, ProcessingItem, MinimaxConfig, MinimaxResponse),
    - [utils/csvHelper.ts]  (parseCSV),
    - [services/minimax.ts] (hexToBytes, generateSpeech),
    - [App.tsx]             (handleFileUpload, processBatch, stats, Clear),
    and the properties of the pipeline proved about it. *)

From Stdlib Require Import ZArith NArith Ascii String DecimalString DecimalN.
From Stdlib.Strings Require Import Byte.
From stdpp Require Import base option list gmap.

Local Open Scope N_scope.

(** ** JavaScript strings

    A JavaScript string is a sequence of UTF-16 code units; [length],
    [substring] and [trim] work on code units. *)

Abbreviation jsstring := (list N).

(** An ASCII literal of the source as a sequence of code units. *)
Definition lit (s : string) : jsstring := N_of_ascii <$> list_ascii_of_string s.

(** ECMAScript [WhiteSpace] and [LineTerminator] code points, the ones
    stripped by [String.prototype.trim] and skipped by [parseInt]. *)
Definition isWhiteSpace (c : N) : bool :=
  (c =? 0x9) || (c =? 0xA) || (c =? 0xB) || (c =? 0xC) || (c =? 0xD) ||
  (c =? 0x20) || (c =? 0xA0) || (c =? 0x1680) ||
  ((0x2000 <=? c) && (c <=? 0x200A)) ||
  (c =? 0x2028) || (c =? 0x2029) || (c =? 0x202F) || (c =? 0x205F) ||
  (c =? 0x3000) || (c =? 0xFEFF).

Fixpoint trimStart (s : jsstring) : jsstring :=
  match s with
  | c :: r => if isWhiteSpace c then trimStart r else s
  | [] => []
  end.

Definition trimEnd (s : jsstring) : jsstring := reverse (trimStart (reverse s)).

(** [s.trim()] *)
Definition trim (s : jsstring) : jsstring := trimEnd (trimStart s).

(** [s.substring(start, end)]: both indices are clamped to the length and
    swapped when out of order. *)
Definition substring (s : jsstring) (start end_ : nat) : jsstring :=
  let a := Nat.min start (length s) in
  let b := Nat.min end_ (length s) in
  take (Nat.max a b - Nat.min a b) (drop (Nat.min a b) s).

(** Truthiness of a value that is a string or [undefined]: only a
    non-empty string is truthy. *)
Definition truthy (v : option jsstring) : bool :=
  match v with
  | Some (_ :: _) => true
  | _ => false
  end.

(** Decimal rendering of a number in a template literal. *)
Definition decimal (n : N) : jsstring := lit (NilZero.string_of_uint (N.to_uint n)).

(** ** services/minimax.ts: hexToBytes *)

(** Value of a radix-16 digit. *)
Definition digit16 (c : N) : option Z :=
  if (0x30 <=? c) && (c <=? 0x39) then Some (Z.of_N (c - 0x30))
  else if (0x61 <=? c) && (c <=? 0x66) then Some (Z.of_N (c - 0x57))
  else if (0x41 <=? c) && (c <=? 0x46) then Some (Z.of_N (c - 0x37))
  else None.

(** The longest prefix of radix-16 digits, read as a number; [acc] is
    [None] as long as no digit was read. *)
Fixpoint digits16 (acc : option Z) (s : jsstring) : option Z :=
  match s with
  | c :: r =>
      match digit16 c with
      | Some d => digits16 (Some (16 * default 0%Z acc + d)%Z) r
      | None => acc
      end
  | [] => acc
  end.

(** [parseInt(string, 16)]: leading white space is skipped, a sign is read,
    a [0x]/[0X] prefix is stripped, the longest prefix of hex digits is the
    value; [None] is [NaN]. (The result is exact as long as it is below
    2^53, which holds for the substrings of at most two code units that
    [hexToBytes] passes.) *)
Definition parseInt16 (string : jsstring) : option Z :=
  let S0 := trimStart string in
  let sign := match S0 with c :: _ => if c =? 0x2D then (-1)%Z else 1%Z | [] => 1%Z end in
  let S1 := match S0 with c :: r => if (c =? 0x2B) || (c =? 0x2D) then r else S0 | [] => S0 end in
  let S2 := match S1 with
            | c :: x :: r => if (c =? 0x30) && ((x =? 0x78) || (x =? 0x58)) then r else S1
            | _ => S1
            end in
  Z.mul sign <$> digits16 None S2.

(** Storing a number in a [Uint8Array] element: [NaN] becomes 0, any
    other integer is taken modulo 256. *)
Definition ToUint8 (v : option Z) : byte :=
  match v with
  | None => x00
  | Some n => default x00 (Byte.of_N (Z.to_N (n mod 256)))
  end.

(** The values taken by [i] in [for (let i = 0; i < n; i += 2)]. *)
Definition loop_indices (n : nat) : list nat := (λ k, 2 * k)%nat <$> seq 0 ((n + 1) / 2).

(** [hexToBytes]: [new Uint8Array(hex.length / 2)] has [hex.length / 2]
    rounded down ([ToIndex]) zero elements; a store past the end of a
    typed array is ignored, as [<[_:=_]>] on lists is. *)
Definition hexToBytes (hex : jsstring) : list byte :=
  foldl (λ bytes i, <[(i / 2)%nat := ToUint8 (parseInt16 (substring hex i (i + 2)))]> bytes)
        (replicate (length hex / 2) x00)
        (loop_indices (length hex)).

(** ** types.ts *)

(** A row after ingestion. [Character], [voice_id] and [text] are strings
    (the filter of [parseCSV] guarantees it); ['Shot Number'] and
    [emotion] may be [undefined] at run time. *)
Record ScriptRow := {
  Shot_Number : option jsstring;
  Character : jsstring;
  voice_id : jsstring;
  text : jsstring;
  emotion : option jsstring
}.

(** ['idle' | 'loading' | 'success' | 'error'] *)
Inductive Status := idle | loading | success | error.

(** An object URL ([blob:...]) minted by [URL.createObjectURL]: the
    browser never hands out the same one twice, so it is identified by
    its serial number. *)
Abbreviation ObjectURL := N.

Record ProcessingItem := {
  id : jsstring;
  row : ScriptRow;
  status : Status;
  audioUrl : option ObjectURL;
  errorMessage : option jsstring
}.

Record MinimaxConfig := { apiKey : jsstring; groupId : jsstring }.

Record BaseResp := { status_code : Z; status_msg : jsstring }.

(** The [data] object of a response; [audio] is declared a string but the
    service omits it when it answers with [audio_file]. *)
Record RespData := {
  audio : option jsstring;
  audio_file : option jsstring;
  data_status : option Z
}.

Record MinimaxResponse := { base_resp : BaseResp; data : option RespData }.

#[global] Instance Status_eq_dec : EqDecision Status.
Proof. solve_decision. Defined.

(** ** Exceptions and the network *)

(** Outcome of a promise of the platform ([fetch], [json()], [blob()],
    [Papa.parse]): resolved with a value, or rejected with an [Error]
    carrying a message ([Some]) or with some other value ([None]). *)
Inductive Fetched (A : Type) :=
| Resolved (a : A)
| Rejected (message : option jsstring).
Arguments Resolved {A} a.
Arguments Rejected {A} message.

(** What a [throw] carries. The three [throw new Error(...)] statements
    of [generateSpeech] are kept apart by constructor; [Rejection] is a
    rejection of the platform passing through. *)
Inductive Thrown :=
| ApiError (http_status : N) (http_statusText : jsstring)
| MinimaxError (msg : jsstring)
| NoAudioData
| Rejection (message : option jsstring).

(** [err.message] when [err instanceof Error]. *)
Definition message_of (err : Thrown) : option jsstring :=
  match err with
  | ApiError st txt => Some (lit "API Error: " ++ decimal st ++ lit " " ++ txt)
  | MinimaxError m => Some (lit "Minimax Error: " ++ m)
  | NoAudioData => Some (lit "No audio data received in response")
  | Rejection m => m
  end.

(** Outcome of a call that may throw. *)
Inductive Completion (A : Type) :=
| Return (a : A)
| Throw (err : Thrown).
Arguments Return {A} a.
Arguments Throw {A} err.

Record Blob := { blob_bytes : list byte; blob_type : jsstring }.

Record VoiceSetting := { vs_voice_id : jsstring; speed : Z; vol : Z; pitch : Z }.
Record AudioSetting := { sample_rate : Z; bitrate : Z; format : jsstring; channel : Z }.
Record Payload := {
  model : jsstring;
  payload_text : jsstring;
  stream : bool;
  voice_setting : VoiceSetting;
  audio_setting : AudioSetting
}.

(** The POST request of [generateSpeech]. *)
Record Request := {
  url : jsstring;
  method : jsstring;
  Authorization : jsstring;
  Content_Type : jsstring;
  body : Payload
}.

(** The part of a [Response] the code reads: [ok], [status],
    [statusText] and the outcome of [json()]. *)
Record Response := {
  ok : bool;
  http_status : N;
  statusText : jsstring;
  json : Fetched MinimaxResponse
}.

(** The network as seen by one call of [generateSpeech]: the answer to
    the POST, and the answer to [fetch(url)] followed by [blob()]. *)
Record Network := {
  fetch : Request → Fetched Response;
  fetch_blob : jsstring → Fetched Blob
}.

(** [await] on a platform promise inside a [try] whose [catch]
    rethrows. *)
Definition await {A} (p : Fetched A) : Completion A :=
  match p with
  | Resolved a => Return a
  | Rejected m => Throw (Rejection m)
  end.

(** ** services/minimax.ts: generateSpeech *)

(** [json.data?.audio] and [json.data?.audio_file] *)
Definition data_audio (j : MinimaxResponse) : option jsstring := data j ≫= audio.
Definition data_audio_file (j : MinimaxResponse) : option jsstring := data j ≫= audio_file.

Definition make_request (text voiceId : jsstring) (config : MinimaxConfig)
    (modelName : jsstring) : Request :=
  let groupId := trim (groupId config) in
  let apiKey := trim (apiKey config) in
  {| url := lit "https://api.minimax.chat/v1/t2a_v2?GroupId=" ++ groupId;
     method := lit "POST";
     Authorization := lit "Bearer " ++ apiKey;
     Content_Type := lit "application/json";
     body := {| model := modelName;
                payload_text := text;
                stream := false;
                voice_setting := {| vs_voice_id := voiceId; speed := 1; vol := 1; pitch := 0 |};
                audio_setting := {| sample_rate := 32000; bitrate := 128000;
                                    format := lit "mp3"; channel := 1 |} |} |}.

(** The body of the [try] block once the POST has been answered. The
    [catch] block logs and rethrows, so it does not show. *)
Definition handle_response (net : Network) (response : Response) : Completion Blob :=
  if negb (ok response) then
    Throw (ApiError (http_status response) (statusText response))
  else
    match await (json response) with
    | Throw err => Throw err
    | Return json =>
        if negb (status_code (base_resp json) =? 0)%Z then
          Throw (MinimaxError (status_msg (base_resp json)))
        else if truthy (data_audio json) then
          Return {| blob_bytes := hexToBytes (default [] (data_audio json));
                    blob_type := lit "audio/mp3" |}
        else if truthy (data_audio_file json) then
          await (fetch_blob net (default [] (data_audio_file json)))
        else
          Throw NoAudioData
    end.

Definition generateSpeech (net : Network) (text voiceId : jsstring)
    (config : MinimaxConfig) (modelName : jsstring) : Completion Blob :=
  match await (fetch net (make_request text voiceId config modelName)) with
  | Throw err => Throw err
  | Return response => handle_response net response
  end.

(** ** utils/csvHelper.ts: parseCSV *)

(** A record of [results.data]: an object keyed by the header names. *)
Abbreviation RawRow := (gmap (list N) (list N)).

(** The object built by the [map] callback: every field is
    [row[...]?.trim()], [undefined] when the column is missing. *)
Record CleanedRow := {
  c_Shot_Number : option jsstring;
  c_Character : option jsstring;
  c_voice_id : option jsstring;
  c_text : option jsstring;
  c_emotion : option jsstring
}.

Definition clean (row : RawRow) : CleanedRow :=
  {| c_Shot_Number := trim <$> row !! lit "Shot Number";
     c_Character := trim <$> row !! lit "Character";
     c_voice_id := trim <$> row !! lit "voice_id";
     c_text := trim <$> row !! lit "text";
     c_emotion := trim <$> row !! lit "emotion" |}.

(** The [filter] callback: [row.text && row.voice_id && row.Character]. *)
Definition valid (r : CleanedRow) : bool :=
  truthy (c_text r) && truthy (c_voice_id r) && truthy (c_Character r).

(** The cast [as ScriptRow[]] of the rows that passed the filter. *)
Definition as_ScriptRow (r : CleanedRow) : ScriptRow :=
  {| Shot_Number := c_Shot_Number r;
     Character := default [] (c_Character r);
     voice_id := default [] (c_voice_id r);
     text := default [] (c_text r);
     emotion := c_emotion r |}.

(** The [complete] callback of [Papa.parse], on [results.data]. *)
Definition parseCSV (data : list RawRow) : list ScriptRow :=
  as_ScriptRow <$> filter (λ r, valid r = true) (clean <$> data).

(** The cleaned records the filter drops. *)
Definition rejected (data : list RawRow) : list CleanedRow :=
  filter (λ r, valid r ≠ true) (clean <$> data).

(** ** App.tsx *)

Definition DEFAULT_MODEL : jsstring := lit "speech-2.6-turbo".

Record Progress := { current : nat; total : nat }.

(** The browser's blob URL store: the object URLs that are live (created
    and not revoked) with the blob each one keeps alive, and the serial
    number of the next URL. *)
Record URLStore := { live : gmap N Blob; next : N }.

(** [URL.createObjectURL(blob)] *)
Definition createObjectURL (blob : Blob) (σ : URLStore) : ObjectURL * URLStore :=
  (next σ, {| live := <[next σ := blob]> (live σ); next := N.succ (next σ) |}).

(** [URL.revokeObjectURL(url)] *)
Definition revokeObjectURL (u : ObjectURL) (σ : URLStore) : URLStore :=
  {| live := delete u (live σ); next := next σ |}.

(** The state of the [App] component (its [useState] cells), the blob
    URL store of the page, and [calls]: the items [generateSpeech] has
    been invoked for so far, oldest first. [calls] is an observation of
    the run, not a variable of the source. *)
Record State := {
  items : list ProcessingItem;
  isProcessing : bool;
  progress : Progress;
  errorState : option jsstring;
  apiKeyState : jsstring;
  groupIdState : jsstring;
  store : URLStore;
  calls : list ProcessingItem
}.

Definition setItems (f : list ProcessingItem → list ProcessingItem) (s : State) : State :=
  {| items := f (items s); isProcessing := isProcessing s; progress := progress s;
     errorState := errorState s; apiKeyState := apiKeyState s;
     groupIdState := groupIdState s; store := store s; calls := calls s |}.

Definition setIsProcessing (b : bool) (s : State) : State :=
  {| items := items s; isProcessing := b; progress := progress s;
     errorState := errorState s; apiKeyState := apiKeyState s;
     groupIdState := groupIdState s; store := store s; calls := calls s |}.

Definition setProgress (f : Progress → Progress) (s : State) : State :=
  {| items := items s; isProcessing := isProcessing s; progress := f (progress s);
     errorState := errorState s; apiKeyState := apiKeyState s;
     groupIdState := groupIdState s; store := store s; calls := calls s |}.

Definition setError (e : option jsstring) (s : State) : State :=
  {| items := items s; isProcessing := isProcessing s; progress := progress s;
     errorState := e; apiKeyState := apiKeyState s;
     groupIdState := groupIdState s; store := store s; calls := calls s |}.

Definition setStore (σ : URLStore) (s : State) : State :=
  {| items := items s; isProcessing := isProcessing s; progress := progress s;
     errorState := errorState s; apiKeyState := apiKeyState s;
     groupIdState := groupIdState s; store := σ; calls := calls s |}.

Definition record_call (item : ProcessingItem) (s : State) : State :=
  {| items := items s; isProcessing := isProcessing s; progress := progress s;
     errorState := errorState s; apiKeyState := apiKeyState s;
     groupIdState := groupIdState s; store := store s; calls := calls s ++ [item] |}.

(** The two credential inputs: [setApiKey(e.target.value)] and
    [setGroupId(e.target.value)]. *)
Definition setApiKey (v : jsstring) (s : State) : State :=
  {| items := items s; isProcessing := isProcessing s; progress := progress s;
     errorState := errorState s; apiKeyState := v;
     groupIdState := groupIdState s; store := store s; calls := calls s |}.

Definition setGroupId (v : jsstring) (s : State) : State :=
  {| items := items s; isProcessing := isProcessing s; progress := progress s;
     errorState := errorState s; apiKeyState := apiKeyState s;
     groupIdState := v; store := store s; calls := calls s |}.

(** The outcome of [Papa.parse]: [complete(results)] or [error(error)]. *)
Inductive PapaResult :=
| complete (data : list RawRow)
| parse_error (message : option jsstring).

(** The items built from the accepted rows; [now] is [Date.now()]. *)
Definition newItems (now : N) (rows : list ScriptRow) : list ProcessingItem :=
  imap (λ index row,
          {| id := decimal (N.of_nat index) ++ lit "-" ++ decimal now;
             row := row; status := idle; audioUrl := None; errorMessage := None |})
       rows.

(** [handleFileUpload]; [file] is [event.target.files?.[0]] as parsed by
    Papa. *)
Definition handleFileUpload (now : N) (file : option PapaResult) (s : State) : State :=
  match file with
  | None => s
  | Some parsed =>
      let s := setError None s in
      match parsed with
      | parse_error _ => setError (Some (lit "Failed to parse CSV file.")) s
      | complete data =>
          let rows := parseCSV data in
          if (length rows =? 0)%nat then
            setError (Some (lit "No valid data found in CSV. Ensure headers: 'Shot Number', 'Character', 'voice_id', 'text'.")) s
          else setItems (λ _, newItems now rows) s
      end
  end.

(** The three [prev.map(i => i.id === item.id ? {...i, ...} : i)] updates. *)
Definition mark_loading (item i : ProcessingItem) : ProcessingItem :=
  if bool_decide (id i = id item)
  then {| id := id i; row := row i; status := loading;
          audioUrl := audioUrl i; errorMessage := None |}
  else i.

Definition mark_success (u : ObjectURL) (item i : ProcessingItem) : ProcessingItem :=
  if bool_decide (id i = id item)
  then {| id := id i; row := row i; status := success;
          audioUrl := Some u; errorMessage := errorMessage i |}
  else i.

Definition mark_error (msg : jsstring) (item i : ProcessingItem) : ProcessingItem :=
  if bool_decide (id i = id item)
  then {| id := id i; row := row i; status := error;
          audioUrl := audioUrl i; errorMessage := Some msg |}
  else i.

(** [i.status === 'idle' || i.status === 'error'] *)
Definition is_pending (i : ProcessingItem) : bool :=
  bool_decide (status i = idle) || bool_decide (status i = error).

Definition pendingItems (s : State) : list ProcessingItem :=
  filter (λ i, is_pending i = true) (items s).

(** One iteration of [for (const item of pendingItems)]. [net k] is the
    network as it answers the [k]-th invocation of [generateSpeech] of
    the session; [processedCount] is the local counter. *)
Definition process_item (net : nat → Network) (acc : State * nat) (item : ProcessingItem)
    : State * nat :=
  let '(s, processedCount) := acc in
  let s := setItems (fmap (mark_loading item)) s in
  let outcome :=
    generateSpeech (net (length (calls s))) (text (row item)) (voice_id (row item))
                   {| apiKey := apiKeyState s; groupId := groupIdState s |} DEFAULT_MODEL in
  let s := record_call item s in
  let s :=
    match outcome with
    | Return blob =>
        let '(u, σ) := createObjectURL blob (store s) in
        setItems (fmap (mark_success u item)) (setStore σ s)
    | Throw err =>
        let msg := default (lit "Unknown error") (message_of err) in
        setItems (fmap (mark_error msg item)) s
    end in
  let processedCount := S processedCount in
  (setProgress (λ prev, {| current := processedCount; total := total prev |}) s,
   processedCount).

(** [processBatch]. The [items] it filters are those of the state the
    callback was created in, which is the state at the click. *)
Definition processBatch (net : nat → Network) (s : State) : State :=
  if negb (truthy (Some (apiKeyState s))) || negb (truthy (Some (groupIdState s))) then
    setError (Some (lit "Please provide API Key and Group ID.")) s
  else
    let s1 := setIsProcessing true s in
    let pending := pendingItems s in
    let s2 := setProgress (λ _, {| current := 0; total := length pending |}) s1 in
    let '(s3, _) := foldl (process_item net) (s2, 0%nat) pending in
    setIsProcessing false s3.

(** The [Clear] button: [setItems([])]. *)
Definition clear (s : State) : State := setItems (λ _, []) s.

(** [stats] *)
Record Stats := { st_total : nat; st_success : nat; st_error : nat; st_pending : nat }.

Definition stats (s : State) : Stats :=
  let total := length (items s) in
  let success := length (filter (λ i, status i = success) (items s)) in
  let error := length (filter (λ i, status i = error) (items s)) in
  {| st_total := total; st_success := success; st_error := error;
     st_pending := total - success - error |}.

(** The state of a freshly loaded page. *)
Definition initial (apiKey groupId : jsstring) : State :=
  {| items := []; isProcessing := false; progress := {| current := 0; total := 0 |};
     errorState := None; apiKeyState := apiKey; groupIdState := groupId;
     store := {| live := ∅; next := 0 |}; calls := [] |}.

(** ** Reference definitions used to state the properties *)

(** Decoding pair by pair, each pair through [parseInt] and the typed
    array store; a last code unit without a partner is left out. *)
Fixpoint decode_pairs (s : jsstring) : list byte :=
  match s with
  | a :: b :: r => ToUint8 (parseInt16 [a; b]) :: decode_pairs r
  | _ => []
  end.

(** A lowercase hex digit, ['0'..'9'] or ['a'..'f']. *)
Definition hexDigit (d : N) : N := if d <? 10 then 0x30 + d else 0x57 + d.

(** The encoding the round trip starts from: two lowercase hex digits
    per byte. *)
Definition bytesToHex (bs : list byte) : jsstring :=
  bs ≫= λ b, [hexDigit (Byte.to_N b / 16); hexDigit (Byte.to_N b mod 16)].

(** The shape the inline audio is expected to have: an even number of
    code units, all of them hex digits. *)
Definition hex_shaped (s : jsstring) : bool :=
  Nat.even (length s) && forallb (λ c, bool_decide (is_Some (digit16 c))) s.

(** The call [generateSpeech(item.row.text, item.row.voice_id,
    { apiKey, groupId }, DEFAULT_MODEL)] of [processBatch], made as the
    [k]-th invocation of the session. *)
Definition adapter (net : nat → Network) (s : State) (k : nat) (item : ProcessingItem)
    : Completion Blob :=
  generateSpeech (net k) (text (row item)) (voice_id (row item))
                 {| apiKey := apiKeyState s; groupId := groupIdState s |} DEFAULT_MODEL.

(** What the two [setItems] calls of one iteration make of the item
    they match, given the outcome of the adapter and the object URL
    minted on success. *)
Definition settle (out : Completion Blob) (u : ObjectURL) (i : ProcessingItem)
    : ProcessingItem :=
  match out with
  | Return _ =>
      {| id := id i; row := row i; status := success;
         audioUrl := Some u; errorMessage := None |}
  | Throw err =>
      {| id := id i; row := row i; status := error; audioUrl := audioUrl i;
         errorMessage := Some (default (lit "Unknown error") (message_of err)) |}
  end.

(** The state after the first [j] iterations of the loop of a run
    started in [s] (all of them when [j] is at least the number of
    selected items). *)
Definition run_prefix (net : nat → Network) (s : State) (j : nat) : State :=
  (foldl (process_item net)
         (setProgress (λ _, {| current := 0; total := length (pendingItems s) |})
                      (setIsProcessing true s), 0%nat)
         (take j (pendingItems s))).1.

(** Both credentials are filled in, so that a click on [Generate Audio]
    starts a run. *)
Definition credentials_given (s : State) : Prop :=
  apiKeyState s ≠ [] ∧ groupIdState s ≠ [].

(** The states the page can be in: what the operator can do is type
    credentials, upload a file, run the batch and clear it; [net] is the
    behaviour of the network during the session. *)
Inductive reachable (net : nat → Network) : State → Prop :=
| reach_initial k g : reachable net (initial k g)
| reach_apiKey v s : reachable net s → reachable net (setApiKey v s)
| reach_groupId v s : reachable net s → reachable net (setGroupId v s)
| reach_upload now file s : reachable net s → reachable net (handleFileUpload now file s)
| reach_run s : reachable net s → reachable net (processBatch net s)
| reach_clear s : reachable net s → reachable net (clear s).

(** The discipline of identities and audio handles: identities are
    unique in the batch; a handle held by an item is live in the URL
    store, is held by that item only, and is held only by an item that
    succeeded; the store never hands out a URL twice. *)
Record handles_ok (s : State) : Prop := {
  ids_NoDup : NoDup (id <$> items s);
  handle_live : ∀ n i u,
    items s !! n = Some i → audioUrl i = Some u → is_Some (live (store s) !! u);
  handle_owner : ∀ n m i j u,
    items s !! n = Some i → items s !! m = Some j →
    audioUrl i = Some u → audioUrl j = Some u → n = m;
  handle_success : ∀ n i u,
    items s !! n = Some i → audioUrl i = Some u → status i = success;
  store_fresh : ∀ u, is_Some (live (store s) !! u) → u < next (store s)
}.

(** ** Example data *)

(** A record of the parsed file with the four required columns. *)
Definition csv_row (shot character voice line : string) : RawRow :=
  list_to_map [(lit "Shot Number", lit shot); (lit "Character", lit character);
               (lit "voice_id", lit voice); (lit "text", lit line)].

(** A 200 response whose body has the given embedded status and audio
    fields. *)
Definition respond (code : Z) (msg : string) (a af : option jsstring) : Response :=
  {| ok := true; http_status := 200; statusText := lit "OK";
     json := Resolved {| base_resp := {| status_code := code; status_msg := lit msg |};
                         data := Some {| audio := a; audio_file := af;
                                         data_status := Some 2%Z |} |} |}.

(** A network that answers every POST with [r] and every follow-up
    fetch with [remote]. *)
Definition net_of (r : Response) (remote : Fetched Blob) : Network :=
  {| fetch := λ _, Resolved r; fetch_blob := λ _, remote |}.

Definition net_hello : Network :=
  net_of (respond 0 "success" (Some (lit "68656c6c6f")) None) (Rejected None).

Definition net_rate_limited : Network :=
  net_of (respond 1002 "rate limited" None None) (Rejected None).

(** Inline audio that is not hex. *)
Definition net_not_hex : Network :=
  net_of (respond 0 "success" (Some (lit "zz")) None) (Rejected None).

(** A remote URL whose download fails. *)
Definition net_remote_down : Network :=
  net_of (respond 0 "success" None (Some (lit "https://cdn.example/a.mp3")))
         (Rejected (Some (lit "Failed to fetch"))).

(** An empty inline audio string next to a remote URL that downloads. *)
Definition net_empty_inline : Network :=
  net_of (respond 0 "success" (Some []) (Some (lit "https://cdn.example/a.mp3")))
         (Resolved {| blob_bytes := [x49; x44; x33]; blob_type := lit "audio/mpeg" |}).

(** The second and the fourth invocation of the session are rate
    limited. *)
Definition net_fail_2_4 (k : nat) : Network :=
  if bool_decide (k = 1 ∨ k = 3)%nat then net_rate_limited else net_hello.

(** Only the first invocation of the session is rate limited. *)
Definition net_fail_first (k : nat) : Network :=
  if bool_decide (k = 0)%nat then net_rate_limited else net_hello.

Definition demo_config : MinimaxConfig := {| apiKey := lit " key "; groupId := lit "group" |}.

Definition five_rows : list RawRow :=
  [csv_row "001" "Neo" "v1" "Hello"; csv_row "002" "Trinity" "v2" "Follow me";
   csv_row "003" "Neo" "v1" "Where"; csv_row "004" "Morpheus" "v3" "Welcome";
   csv_row "005" "Neo" "v1" "Whoa"].

(** A row as [parseCSV] makes it of a [csv_row]. *)
Definition script_row (shot character voice line : string) : ScriptRow :=
  {| Shot_Number := Some (lit shot); Character := lit character; voice_id := lit voice;
     text := lit line; emotion := None |}.

(** The resource made of the inline audio ["68656c6c6f"]. *)
Definition hello_blob : Blob :=
  {| blob_bytes := list_byte_of_string "hello"; blob_type := lit "audio/mp3" |}.

(** A page with credentials typed in and a file of [data] uploaded at
    time 1700000000000. *)
Definition uploaded (data : list RawRow) : State :=
  handleFileUpload 1700000000000 (Some (complete data)) (initial (lit "key") (lit "group")).

(** ** utils/csvHelper.ts: downloadBlob *)

(** The [a] element [downloadBlob] creates: its [href] and its
    [download] attribute. *)
Record Anchor := { href : ObjectURL; download : jsstring }.

(** The part of the page [downloadBlob] acts on: the blob URL store, the
    anchors among the children of [document.body], and the downloads the
    browser has started, each with the file name and the blob the URL
    resolved to when the anchor was clicked ([None] for a URL that was not
    live). *)
Record Page := {
  page_store : URLStore;
  body_children : list Anchor;
  downloads : list (jsstring * option Blob)
}.

(** [a.click()] on an anchor with a [download] attribute. *)
Definition click (a : Anchor) (p : Page) : Page :=
  {| page_store := page_store p; body_children := body_children p;
     downloads := downloads p ++ [(download a, live (page_store p) !! href a)] |}.

(** [downloadBlob]: the anchor is appended as the last child of the body
    and [removeChild] takes that node out again. *)
Definition downloadBlob (blob : Blob) (filename : jsstring) (p : Page) : Page :=
  let '(url, σ) := createObjectURL blob (page_store p) in
  let a := {| href := url; download := filename |} in
  let p1 := {| page_store := σ; body_children := body_children p ++ [a];
               downloads := downloads p |} in
  let p2 := click a p1 in
  let p3 := {| page_store := page_store p2;
               body_children := delete (length (body_children p)) (body_children p2);
               downloads := downloads p2 |} in
  {| page_store := revokeObjectURL url (page_store p3);
     body_children := body_children p3; downloads := downloads p3 |}.

(** ** App.tsx: the audio cell of a row *)

(** A value that is a string or [undefined], inside a template
    literal. *)
Definition template (v : option jsstring) : jsstring := default (lit "undefined") v.

(** [`${item.row['Shot Number']}_${item.row.Character}.mp3`] *)
Definition fileName (item : ProcessingItem) : jsstring :=
  template (Shot_Number (row item)) ++ lit "_" ++ Character (row item) ++ lit ".mp3".

(** [item.status === 'success' && item.audioUrl && <AudioPlayer src=...
    fileName=... />]: the props of the player the row shows, if it shows
    one. *)
Definition player (item : ProcessingItem) : option (ObjectURL * jsstring) :=
  if bool_decide (status item = success)
  then (λ u, (u, fileName item)) <$> audioUrl item
  else None.

(** ** More reference definitions *)

(** The outcomes of the adapter for the items a run started in [s]
    selects, in order. *)
Definition outcomes (net : nat → Network) (s : State) : list (Completion Blob) :=
  imap (λ k item, adapter net s (length (calls s) + k)%nat item) (pendingItems s).

Definition returned {A} (o : Completion A) : bool :=
  match o with
  | Return _ => true
  | Throw _ => false
  end.

(** What the fields of an item say about each other. *)
Definition item_ok (i : ProcessingItem) : Prop :=
  status i ≠ loading ∧
  (is_Some (audioUrl i) ↔ status i = success) ∧
  (is_Some (errorMessage i) ↔ status i = error).

(** A string with no white space at either end. *)
Definition trimmed (s : jsstring) : Prop :=
  match s with
  | [] => True
  | c :: _ => isWhiteSpace c = false
  end ∧
  match reverse s with
  | [] => True
  | c :: _ => isWhiteSpace c = false
  end.

(** An uppercase hex digit as the lowercase one, any other code unit as
    it is. *)
Definition lowerHex (c : N) : N := if (0x41 <=? c) && (c <=? 0x46) then c + 0x20 else c.

(** * Properties *)

Arguments lit : simpl never.
Arguments trim : simpl never.
Arguments hexToBytes : simpl never.
Arguments generateSpeech : simpl never.
Arguments process_item : simpl never.

(** ** The hex decoder *)

Section hexToBytes_facts.

Local Open Scope nat_scope.

Lemma div2_SS n : S (S n) / 2 = S (n / 2).
Proof.
  change (S (S n)) with (1 * 2 + n). rewrite Nat.add_comm, Nat.div_add by lia. lia.
Qed.

Lemma decode_pairs_length s : length (decode_pairs s) = length s / 2.
Proof.
  remember (length s) as n eqn:Hn. revert s Hn.
  induction n as [n IH] using lt_wf_ind; intros s ->.
  destruct s as [|a [|b r]]; [done..|].
  cbn [decode_pairs length]. rewrite div2_SS. f_equal.
  apply (IH (length r)); [cbn; lia | done].
Qed.

Lemma decode_pairs_lookup s k :
  k < length s / 2 →
  decode_pairs s !! k = Some (ToUint8 (parseInt16 (substring s (2 * k) (2 * k + 2)))).
Proof.
  revert s. induction k as [|k IH]; intros s Hk.
  - destruct s as [|a [|b r]]; [cbn in Hk; lia..|]. reflexivity.
  - destruct s as [|a [|b r]]; [cbn in Hk; lia..|].
    cbn [length] in Hk. rewrite div2_SS in Hk.
    assert (Hr : k < length r / 2) by lia.
    cbn [decode_pairs]. rewrite lookup_cons_ne_0 by lia. cbn [pred].
    rewrite IH by done. do 3 f_equal.
    assert (2 * k + 2 ≤ length r).
    { pose proof (Nat.div_mod_eq (length r) 2). lia. }
    unfold substring. cbn [length].
    rewrite !Nat.min_l, !Nat.max_r by lia.
    replace (2 * S k) with (S (S (2 * k))) by lia.
    replace (S (S (2 * k)) + 2 - S (S (2 * k))) with (2 * k + 2 - 2 * k) by lia.
    reflexivity.
Qed.

(** The state of [bytes] after the first [k] iterations of the loop. *)
Lemma hexToBytes_prefix hex k :
  k ≤ (length hex + 1) / 2 →
  foldl (λ bytes i, <[i / 2 := ToUint8 (parseInt16 (substring hex i (i + 2)))]> bytes)
        (replicate (length hex / 2) x00) ((λ k, 2 * k) <$> seq 0 k)
  = take k (decode_pairs hex) ++ replicate (length hex / 2 - k) x00.
Proof.
  induction k as [|k IH]; intros Hk.
  - cbn. by rewrite Nat.sub_0_r.
  - rewrite seq_S, fmap_app, foldl_app, IH by lia. cbn [fmap list_fmap foldl Nat.add].
    replace (2 * k / 2) with k by (rewrite Nat.mul_comm, Nat.div_mul; lia).
    pose proof (decode_pairs_length hex) as Hlen.
    destruct (decide (k < length hex / 2)) as [Hlt|Hge].
    + rewrite insert_app_r_alt by (rewrite length_take; lia).
      rewrite length_take, Nat.min_l, Nat.sub_diag by lia.
      replace (length hex / 2 - k) with (S (length hex / 2 - S k)) by lia.
      cbn [replicate]. rewrite (take_S_r _ _ _ (decode_pairs_lookup hex k Hlt)).
      by rewrite <- app_assoc.
    + rewrite list_insert_ge.
      2:{ rewrite length_app, length_take, length_replicate. lia. }
      replace (length hex / 2 - k) with 0 by lia.
      replace (length hex / 2 - S k) with 0 by lia.
      by rewrite !take_ge by lia.
Qed.

(** The loop of [hexToBytes] computes [decode_pairs]. *)
Lemma hexToBytes_decode_pairs hex : hexToBytes hex = decode_pairs hex.
Proof.
  unfold hexToBytes, loop_indices. rewrite hexToBytes_prefix by done.
  pose proof (decode_pairs_length hex).
  pose proof (Nat.Div0.div_le_mono (length hex) (length hex + 1) 2).
  replace (length hex / 2 - (length hex + 1) / 2) with 0 by lia.
  rewrite take_ge by lia. apply app_nil_r.
Qed.

Lemma decode_byteToHex (b : byte) :
  ToUint8 (parseInt16 [hexDigit (Byte.to_N b / 16); hexDigit (Byte.to_N b mod 16)]) = b.
Proof. destruct b; reflexivity. Qed.

End hexToBytes_facts.

(** ** The scheduler loop *)

Section scheduler.

Variable net : nat → Network.

Local Open Scope nat_scope.

(** One iteration, field by field. *)
Lemma process_item_items s c it :
  items (process_item net (s, c) it).1
  = (λ i, if bool_decide (id i = id it)
          then settle (adapter net s (length (calls s)) it) (next (store s)) i
          else i) <$> items s.
Proof.
  unfold process_item, adapter. cbn.
  destruct (generateSpeech _ _ _ _ _) as [blob|err]; cbn;
    rewrite <- list_fmap_compose; apply list_fmap_ext; intros _ i _; cbn;
    unfold mark_success, mark_error, mark_loading;
    destruct (decide (id i = id it)) as [He|He];
    rewrite ?(bool_decide_eq_true_2 _ He), ?(bool_decide_eq_false_2 _ He); cbn;
    by rewrite ?(bool_decide_eq_true_2 _ He), ?(bool_decide_eq_false_2 _ He).
Qed.

Lemma process_item_store s c it :
  store (process_item net (s, c) it).1
  = match adapter net s (length (calls s)) it with
    | Return blob => (createObjectURL blob (store s)).2
    | Throw _ => store s
    end.
Proof.
  unfold process_item, adapter. cbn.
  by destruct (generateSpeech _ _ _ _ _) as [blob|err].
Qed.

Lemma process_item_frame s c it :
  let s' := (process_item net (s, c) it).1 in
  calls s' = calls s ++ [it] ∧ apiKeyState s' = apiKeyState s ∧
  groupIdState s' = groupIdState s ∧ errorState s' = errorState s ∧
  isProcessing s' = isProcessing s ∧
  progress s' = {| current := S c; total := total (progress s) |} ∧
  (process_item net (s, c) it).2 = S c.
Proof.
  unfold process_item. cbn.
  by destruct (generateSpeech _ _ _ _ _) as [blob|err].
Qed.

Lemma process_item_ids s c it :
  id <$> items (process_item net (s, c) it).1 = id <$> items s.
Proof.
  rewrite process_item_items, <- list_fmap_compose.
  apply list_fmap_ext; intros _ i _; cbn.
  case_bool_decide; [|done]. unfold settle. by destruct (adapter _ _ _ _).
Qed.

Lemma process_item_other s c it n i :
  items s !! n = Some i → id i ≠ id it →
  items (process_item net (s, c) it).1 !! n = Some i.
Proof.
  intros Hn Hne. rewrite process_item_items, list_lookup_fmap, Hn. cbn.
  by rewrite bool_decide_eq_false_2.
Qed.

Lemma process_item_self s c it n i :
  items s !! n = Some i → id i = id it →
  items (process_item net (s, c) it).1 !! n
  = Some (settle (adapter net s (length (calls s)) it) (next (store s)) i).
Proof.
  intros Hn He. rewrite process_item_items, list_lookup_fmap, Hn. cbn.
  by rewrite bool_decide_eq_true_2.
Qed.

Lemma settle_id out u i : id (settle out u i) = id i.
Proof. by destruct out. Qed.

Lemma settle_status out u i : status (settle out u i) = success ∨ status (settle out u i) = error.
Proof. destruct out; [by left | by right]. Qed.

(** The loop over any list of items. *)
Lemma loop_frame L : ∀ s c,
  let s' := (foldl (process_item net) (s, c) L).1 in
  calls s' = calls s ++ L ∧ apiKeyState s' = apiKeyState s ∧
  groupIdState s' = groupIdState s ∧ errorState s' = errorState s ∧
  isProcessing s' = isProcessing s ∧ id <$> items s' = id <$> items s.
Proof.
  induction L as [|it L IH]; intros s c; cbv zeta; cbn [foldl fst].
  - by rewrite app_nil_r.
  - destruct (process_item net (s, c) it) as [s1 c1] eqn:E.
    pose proof (process_item_frame s c it) as F.
    pose proof (process_item_ids s c it) as Hid.
    rewrite E in F, Hid; cbn in F, Hid.
    destruct F as (F1 & F2 & F3 & F4 & F5 & _).
    destruct (IH s1 c1) as (I1 & I2 & I3 & I4 & I5 & I6).
    rewrite I1, I2, I3, I4, I5, I6, F1, F2, F3, F4, F5, Hid, <- app_assoc.
    done.
Qed.

Lemma loop_untouched L : ∀ s c n i,
  items s !! n = Some i → id i ∉ id <$> L →
  items (foldl (process_item net) (s, c) L).1 !! n = Some i.
Proof.
  induction L as [|it L IH]; intros s c n i Hn Hid; cbn [foldl fst]; [done|].
  rewrite fmap_cons, not_elem_of_cons in Hid. destruct Hid as [Hne Hid].
  destruct (process_item net (s, c) it) as [s1 c1] eqn:E.
  apply IH; [|done].
  pose proof (process_item_other s c it n i Hn Hne) as H. rewrite E in H. exact H.
Qed.

Lemma process_item_store_mono s c it :
  let s' := (process_item net (s, c) it).1 in
  (next (store s) ≤ next (store s'))%N ∧
  ∀ u, (u < next (store s))%N → live (store s') !! u = live (store s) !! u.
Proof.
  cbv zeta. rewrite process_item_store.
  destruct (adapter _ _ _ _) as [blob|err]; cbn; [|split; [lia|done]].
  split; [lia|]. intros u Hu. rewrite lookup_insert_ne; [done|lia].
Qed.

Lemma loop_store_mono L : ∀ s c,
  let s' := (foldl (process_item net) (s, c) L).1 in
  (next (store s) ≤ next (store s'))%N ∧
  ∀ u, (u < next (store s))%N → live (store s') !! u = live (store s) !! u.
Proof.
  induction L as [|it L IH]; intros s c; cbv zeta; cbn [foldl fst]; [split; [lia|done]|].
  destruct (process_item net (s, c) it) as [s1 c1] eqn:E.
  pose proof (process_item_store_mono s c it) as [M1 M2].
  rewrite E in M1, M2; cbn in M1, M2.
  destruct (IH s1 c1) as [I1 I2]. split; [lia|].
  intros u Hu. rewrite I2 by lia. by apply M2.
Qed.

(** The item at the [k]-th place of the list is settled by the
    outcome of the [k]-th invocation of the adapter from now on, and
    stays so until the end of the loop. *)
Lemma loop_selected L : ∀ s c k n it,
  NoDup (id <$> L) → L !! k = Some it → items s !! n = Some it →
  let s' := (foldl (process_item net) (s, c) L).1 in
  let out := adapter net s (length (calls s) + k) it in
  ∃ u, items s' !! n = Some (settle out u it) ∧
       (next (store s) ≤ u)%N ∧
       ∀ blob, out = Return blob → live (store s') !! u = Some blob.
Proof.
  induction L as [|a L IH]; intros s c k n it HND Hk Hn; [done|].
  rewrite fmap_cons, NoDup_cons in HND. destruct HND as [Ha HND].
  cbv zeta; cbn [foldl fst].
  destruct (process_item net (s, c) a) as [s1 c1] eqn:E.
  pose proof (process_item_frame s c a) as F. rewrite E in F; cbn in F.
  destruct F as (F1 & F2 & F3 & _).
  pose proof (process_item_store s c a) as Hst. rewrite E in Hst; cbn in Hst.
  destruct k as [|k]; cbn in Hk.
  - injection Hk as ->. rewrite Nat.add_0_r.
    pose proof (process_item_self s c it n it Hn eq_refl) as Hs.
    rewrite E in Hs; cbn in Hs.
    exists (next (store s)). split; [|split; [lia|]].
    + apply loop_untouched; [done|]. by rewrite settle_id.
    + intros blob Hout. rewrite Hout in Hst.
      destruct (loop_store_mono L s1 c1) as [_ M]. rewrite M.
      * rewrite Hst. cbn. apply lookup_insert_eq.
      * rewrite Hst. cbn. lia.
  - assert (id it ≠ id a) as Hne.
    { intros He. apply Ha. rewrite <- He. apply list_elem_of_fmap.
      exists it. split; [done|]. by eapply list_elem_of_lookup_2. }
    pose proof (process_item_other s c a n it Hn Hne) as Ho.
    rewrite E in Ho; cbn in Ho.
    destruct (IH s1 c1 k n it HND Hk Ho) as (u & U1 & U2 & U3).
    unfold adapter in *. rewrite F1, F2, F3, length_app in U1, U3. cbn in U1, U3.
    replace (length (calls s) + 1 + k) with (length (calls s) + S k) in U1, U3 by lia.
    exists u. split; [done|]. split; [|done].
    pose proof (process_item_store_mono s c a) as [M _].
    rewrite E in M; cbn in M. lia.
Qed.

End scheduler.

(** ** Whole runs *)

Section runs.

Variable net : nat → Network.

Local Open Scope nat_scope.

Lemma processBatch_given s :
  credentials_given s →
  processBatch net s = setIsProcessing false (run_prefix net s (length (pendingItems s))).
Proof.
  intros [Hk Hg]. unfold processBatch, run_prefix.
  destruct (apiKeyState s) as [|? ?] eqn:Ek; [done|].
  destruct (groupIdState s) as [|? ?] eqn:Eg; [done|]. cbn [truthy negb orb].
  rewrite firstn_all. by destruct (foldl _ _ _).
Qed.

Lemma processBatch_missing s :
  ¬ credentials_given s →
  processBatch net s = setError (Some (lit "Please provide API Key and Group ID.")) s.
Proof.
  intros H. unfold processBatch.
  destruct (apiKeyState s) as [|? ?] eqn:Ek; [done|].
  destruct (groupIdState s) as [|? ?] eqn:Eg; [done|].
  exfalso. apply H. unfold credentials_given. by rewrite Ek, Eg.
Qed.

Lemma credentials_given_dec s : Decision (credentials_given s).
Proof. unfold credentials_given. apply _. Qed.

Lemma pendingItems_lookup s k it :
  pendingItems s !! k = Some it → is_pending it = true ∧ ∃ n, items s !! n = Some it.
Proof.
  intros H. apply list_elem_of_lookup_2 in H.
  unfold pendingItems in H. apply list_elem_of_filter in H as [Hp Hin].
  split; [done|]. by apply list_elem_of_lookup_1.
Qed.

Lemma pendingItems_NoDup s :
  NoDup (id <$> items s) → NoDup (id <$> pendingItems s).
Proof.
  intros H. eapply sublist_NoDup; [exact H|].
  apply fmap_sublist, sublist_filter.
Qed.

Lemma NoDup_ids_lookup (l : list ProcessingItem) n m i j :
  NoDup (id <$> l) → l !! n = Some i → l !! m = Some j → id i = id j → n = m.
Proof.
  intros HND Hn Hm He.
  eapply NoDup_lookup; [exact HND| |].
  - rewrite list_lookup_fmap, Hn. reflexivity.
  - rewrite list_lookup_fmap, Hm. cbn. by rewrite He.
Qed.

(** An item that is not selected has an identity no selected item
    has. *)
Lemma unselected_id s n i :
  NoDup (id <$> items s) → items s !! n = Some i → is_pending i = false →
  id i ∉ id <$> pendingItems s.
Proof.
  intros HND Hn Hp Hin.
  apply list_elem_of_fmap in Hin as (j & He & Hj).
  apply list_elem_of_lookup_1 in Hj as [k Hk].
  apply pendingItems_lookup in Hk as [Hpj [m Hm]].
  assert (n = m) by (eapply NoDup_ids_lookup; eauto). subst m.
  rewrite Hn in Hm. injection Hm as ->. congruence.
Qed.

Lemma run_prefix_frame s j :
  let s' := run_prefix net s j in
  calls s' = calls s ++ take j (pendingItems s) ∧
  apiKeyState s' = apiKeyState s ∧ groupIdState s' = groupIdState s ∧
  errorState s' = errorState s ∧ id <$> items s' = id <$> items s.
Proof.
  cbv zeta. unfold run_prefix.
  destruct (loop_frame net (take j (pendingItems s))
    (setProgress (λ _, {| current := 0; total := length (pendingItems s) |})
                 (setIsProcessing true s)) 0) as (H1 & H2 & H3 & H4 & _ & H6).
  done.
Qed.

Lemma run_prefix_untouched s j n i :
  NoDup (id <$> items s) → items s !! n = Some i → is_pending i = false →
  items (run_prefix net s j) !! n = Some i.
Proof.
  intros HND Hn Hp. unfold run_prefix. apply loop_untouched; [done|].
  intros Hin. eapply unselected_id; [done..|].
  eapply list_elem_of_fmap in Hin as (x & -> & Hx).
  apply list_elem_of_fmap. exists x. split; [done|].
  apply elem_of_take in Hx as (k & Hk & _). by eapply list_elem_of_lookup_2.
Qed.

Lemma run_prefix_selected s j k n it :
  NoDup (id <$> items s) → k < j →
  pendingItems s !! k = Some it → items s !! n = Some it →
  let out := adapter net s (length (calls s) + k) it in
  ∃ u, items (run_prefix net s j) !! n = Some (settle out u it) ∧
       (next (store s) ≤ u)%N ∧
       ∀ blob, out = Return blob → live (store (run_prefix net s j)) !! u = Some blob.
Proof.
  intros HND Hkj Hk Hn. unfold run_prefix.
  apply (loop_selected net (take j (pendingItems s))
           (setProgress (λ _, {| current := 0; total := length (pendingItems s) |})
                        (setIsProcessing true s)) 0 k n it).
  - eapply sublist_NoDup; [exact (pendingItems_NoDup s HND)|].
    apply fmap_sublist, sublist_take.
  - by rewrite lookup_take_lt.
  - done.
Qed.

Lemma run_prefix_store s j :
  (next (store s) ≤ next (store (run_prefix net s j)))%N ∧
  ∀ u, (u < next (store s))%N →
       live (store (run_prefix net s j)) !! u = live (store s) !! u.
Proof.
  unfold run_prefix.
  apply (loop_store_mono net (take j (pendingItems s))
           (setProgress (λ _, {| current := 0; total := length (pendingItems s) |})
                        (setIsProcessing true s)) 0).
Qed.

End runs.

(** ** Identities and audio handles *)

Section handles.

Variable net : nat → Network.

Local Open Scope nat_scope.

Lemma lit_inj a b : lit a = lit b → a = b.
Proof.
  unfold lit. intros H.
  rewrite <- (string_of_list_ascii_of_string a), <- (string_of_list_ascii_of_string b).
  f_equal. revert H. generalize (list_ascii_of_string a) (list_ascii_of_string b).
  intros l. induction l as [|x l IH]; intros [|y l'] H; try done.
  cbn in H. injection H as Hx Hl. f_equal; [|by apply IH].
  by rewrite <- (ascii_N_embedding x), <- (ascii_N_embedding y), Hx.
Qed.

Lemma decimal_inj n m : decimal n = decimal m → n = m.
Proof.
  unfold decimal. intros H. apply lit_inj in H.
  apply DecimalN.Unsigned.to_uint_inj.
  assert (Hn : ∀ k, N.to_uint k ≠ Decimal.Nil).
  { intros k Hk. pose proof (DecimalN.Unsigned.of_to k) as Hof.
    pose proof (DecimalN.Unsigned.to_of (N.to_uint k)) as Hto.
    rewrite Hof in Hto. rewrite Hk in Hto at 2. cbn in Hto.
    rewrite Hk in Hto. discriminate. }
  pose proof (NilZero.usu _ (Hn n)) as Un. pose proof (NilZero.usu _ (Hn m)) as Um.
  rewrite H in Un. congruence.
Qed.

(** The identities [`${index}-${Date.now()}`] of one upload are pairwise
    different. *)
Lemma newItems_ids_NoDup now rows : NoDup (id <$> newItems now rows).
Proof.
  unfold newItems. rewrite fmap_imap.
  rewrite (imap_ext _ (λ j _, decimal (N.of_nat j) ++ lit "-" ++ decimal now)) by done.
  rewrite imap_seq_0. apply NoDup_fmap_2_strong; [|apply NoDup_seq].
  intros x y _ _ H. apply app_inv_tail in H. apply decimal_inj in H. lia.
Qed.

Lemma newItems_lookup now rows n i :
  newItems now rows !! n = Some i →
  status i = idle ∧ audioUrl i = None ∧ errorMessage i = None ∧ rows !! n = Some (row i).
Proof.
  unfold newItems. rewrite list_lookup_imap. destruct (rows !! n) as [r|]; [|done].
  cbn. by intros [= <-].
Qed.

Lemma handles_ok_initial k g : handles_ok (initial k g).
Proof.
  split; cbn; [constructor|done..|].
  intros u [x Hx]. by rewrite lookup_empty in Hx.
Qed.

Lemma handles_ok_upload now file s :
  handles_ok s → handles_ok (handleFileUpload now file s).
Proof.
  intros [H1 H2 H3 H4 H5]. unfold handleFileUpload.
  destruct file as [[data|m]|]; [|by split..].
  destruct (length (parseCSV data) =? 0); [by split|].
  split; cbn; [apply newItems_ids_NoDup| | | |done].
  - intros n i u Hn Hu. apply newItems_lookup in Hn as (_ & Hnone & _). congruence.
  - intros n m i j u Hn _ Hu. apply newItems_lookup in Hn as (_ & Hnone & _). congruence.
  - intros n i u Hn Hu. apply newItems_lookup in Hn as (_ & Hnone & _). congruence.
Qed.

Lemma handles_ok_clear s : handles_ok s → handles_ok (clear s).
Proof. intros [H1 H2 H3 H4 H5]. split; cbn; [constructor|done..]. Qed.

Lemma handles_ok_frame s s' :
  items s' = items s → store s' = store s → handles_ok s → handles_ok s'.
Proof. intros Hi Hs [H1 H2 H3 H4 H5]. split; rewrite ?Hi, ?Hs; done. Qed.

Lemma process_item_lookup s c it n i1 :
  items (process_item net (s, c) it).1 !! n = Some i1 →
  ∃ i, items s !! n = Some i ∧
       ((id i = id it ∧
         i1 = settle (adapter net s (length (calls s)) it) (next (store s)) i) ∨
        (id i ≠ id it ∧ i1 = i)).
Proof.
  rewrite (process_item_items net), list_lookup_fmap.
  destruct (items s !! n) as [i|]; [|done]. cbn. intros [= <-].
  exists i. split; [done|]. case_bool_decide; [left|right]; done.
Qed.

(** One iteration keeps the discipline, provided the item it is about
    holds no handle yet. *)
Lemma process_item_handles_ok s c it :
  handles_ok s →
  (∀ n i, items s !! n = Some i → id i = id it → audioUrl i = None) →
  handles_ok (process_item net (s, c) it).1.
Proof.
  intros [H1 H2 H3 H4 H5] Hnone.
  pose proof (process_item_store net s c it) as Hst.
  assert (Hold : ∀ n i u, items s !! n = Some i → audioUrl i = Some u →
                 (u < next (store s))%N) by (intros; eapply H5, H2; eauto).
  assert (Hset : ∀ n i u,
    items s !! n = Some i → id i = id it →
    audioUrl (settle (adapter net s (length (calls s)) it) (next (store s)) i) = Some u →
    u = next (store s) ∧ ∃ blob, adapter net s (length (calls s)) it = Return blob).
  { intros n i u Hn He Hu. destruct (adapter _ _ _ _) as [blob|err]; cbn in Hu.
    - injection Hu as <-. eauto.
    - rewrite (Hnone n i Hn He) in Hu. done. }
  split.
  - by rewrite (process_item_ids net).
  - intros n i1 u Hn Hu.
    apply process_item_lookup in Hn as (i & Hi & [[He ->]|[He ->]]).
    + destruct (Hset n i u Hi He Hu) as [-> [blob Hb]].
      rewrite Hst, Hb. cbn. rewrite lookup_insert_eq. eauto.
    + destruct (process_item_store_mono net s c it) as [_ M].
      rewrite M by eauto. eauto.
  - intros n m i1 j1 u Hn Hm Hu Hv.
    apply process_item_lookup in Hn as (i & Hi & [[He ->]|[He ->]]);
      apply process_item_lookup in Hm as (j & Hj & [[He' ->]|[He' ->]]).
    + eapply NoDup_ids_lookup; eauto. congruence.
    + destruct (Hset n i u Hi He Hu) as [-> _].
      pose proof (Hold m j _ Hj Hv). lia.
    + destruct (Hset m j u Hj He' Hv) as [-> _].
      pose proof (Hold n i _ Hi Hu). lia.
    + eauto.
  - intros n i1 u Hn Hu.
    apply process_item_lookup in Hn as (i & Hi & [[He ->]|[He ->]]).
    + destruct (Hset n i u Hi He Hu) as [_ [blob Hb]]. by rewrite Hb.
    + eauto.
  - intros u Hu. rewrite Hst in Hu |- *.
    destruct (adapter _ _ _ _) as [blob|err]; cbn in *; [|eauto].
    destruct (decide (u = next (store s))) as [->|Hne]; [lia|].
    rewrite lookup_insert_ne in Hu by done. apply H5 in Hu. lia.
Qed.

Lemma loop_handles_ok L : ∀ s c,
  NoDup (id <$> L) → handles_ok s →
  (∀ n i, items s !! n = Some i → id i ∈ id <$> L → audioUrl i = None) →
  handles_ok (foldl (process_item net) (s, c) L).1.
Proof.
  induction L as [|it L IH]; intros s c HND Hok Hnone; cbn [foldl fst]; [done|].
  rewrite fmap_cons, NoDup_cons in HND. destruct HND as [Hit HND].
  pose proof (process_item_handles_ok s c it Hok) as Hstep.
  pose proof (process_item_lookup s c it) as Hlk.
  destruct (process_item net (s, c) it) as [s1 c1]. cbn [fst] in *.
  apply IH; [done| |].
  - apply Hstep. intros n i Hn He. apply (Hnone n i Hn). rewrite He, fmap_cons. left.
  - intros n i1 Hn Hin. apply Hlk in Hn as (i & Hi & [[He ->]|[He ->]]).
    + rewrite settle_id, He in Hin. done.
    + apply (Hnone n i Hi). rewrite fmap_cons. by right.
Qed.

(** The discipline holds after every iteration of a run. *)
Lemma run_prefix_handles_ok s j : handles_ok s → handles_ok (run_prefix net s j).
Proof.
  intros Hok. unfold run_prefix. apply loop_handles_ok.
  - eapply sublist_NoDup; [exact (pendingItems_NoDup s (ids_NoDup s Hok))|].
    apply fmap_sublist, sublist_take.
  - by eapply handles_ok_frame; [| |exact Hok].
  - cbn. intros n i Hn Hin.
    destruct (audioUrl i) as [u|] eqn:Hu; [|done]. exfalso.
    pose proof (handle_success s Hok n i u Hn Hu) as Hs.
    eapply (unselected_id s n i); [by apply ids_NoDup|done| |].
    + unfold is_pending. rewrite Hs. done.
    + apply list_elem_of_fmap in Hin as (x & -> & Hx).
      apply list_elem_of_fmap. exists x. split; [done|].
      apply elem_of_take in Hx as (k & Hk & _). by eapply list_elem_of_lookup_2.
Qed.

Lemma processBatch_handles_ok s : handles_ok s → handles_ok (processBatch net s).
Proof.
  intros Hok. destruct (credentials_given_dec s) as [Hc|Hc].
  - rewrite processBatch_given by done.
    eapply handles_ok_frame;
      [| |exact (run_prefix_handles_ok s (length (pendingItems s)) Hok)]; done.
  - rewrite processBatch_missing by done.
    eapply handles_ok_frame; [| |exact Hok]; done.
Qed.

Lemma reachable_handles_ok s : reachable net s → handles_ok s.
Proof.
  induction 1 as [k g|v s _ IH|v s _ IH|now file s _ IH|s _ IH|s _ IH].
  - apply handles_ok_initial.
  - by eapply handles_ok_frame; [| |exact IH].
  - by eapply handles_ok_frame; [| |exact IH].
  - by apply handles_ok_upload.
  - by apply processBatch_handles_ok.
  - by apply handles_ok_clear.
Qed.

End handles.

(** ** The adapter: decoding *)

Section decoding.

Local Open Scope nat_scope.

Lemma generateSpeech_resolved net text voiceId config modelName response :
  fetch net (make_request text voiceId config modelName) = Resolved response →
  generateSpeech net text voiceId config modelName = handle_response net response.
Proof. intros H. unfold generateSpeech. by rewrite H. Qed.

(** The branches taken on a response with success status whose body
    parses. *)
Lemma handle_response_ok net response j :
  ok response = true → json response = Resolved j →
  handle_response net response
  = if negb (status_code (base_resp j) =? 0)%Z then
      Throw (MinimaxError (status_msg (base_resp j)))
    else if truthy (data_audio j) then
      Return {| blob_bytes := hexToBytes (default [] (data_audio j));
                blob_type := lit "audio/mp3" |}
    else if truthy (data_audio_file j) then
      await (fetch_blob net (default [] (data_audio_file j)))
    else Throw NoAudioData.
Proof. intros Hok Hj. unfold handle_response. by rewrite Hok, Hj. Qed.

(** Two hex digits are read as the number they write. *)
Lemma hex_pair_value a b da db :
  digit16 a = Some da → digit16 b = Some db →
  Byte.to_N (ToUint8 (parseInt16 [a; b])) = Z.to_N (16 * da + db).
Proof.
  assert (Hlt : ∀ c d, digit16 c = Some d → c ∈ N.of_nat <$> seq 0 103).
  { intros c d Hc. apply list_elem_of_fmap. exists (N.to_nat c).
    split; [by rewrite N2Nat.id|]. apply elem_of_seq.
    assert (c < 103)%N; [|lia].
    unfold digit16 in Hc.
    destruct (_ && _) eqn:E1 in Hc; [apply andb_prop in E1 as [_ E1%N.leb_le]; lia|].
    destruct (_ && _) eqn:E2 in Hc; [apply andb_prop in E2 as [_ E2%N.leb_le]; lia|].
    destruct (_ && _) eqn:E3 in Hc; [apply andb_prop in E3 as [_ E3%N.leb_le]; lia|done]. }
  assert (Hall :
    forallb (λ a, forallb (λ b,
      match digit16 a, digit16 b with
      | Some da, Some db =>
          (Byte.to_N (ToUint8 (parseInt16 [a; b])) =? Z.to_N (16 * da + db))%N
      | _, _ => true
      end) (N.of_nat <$> seq 0 103)) (N.of_nat <$> seq 0 103) = true)
    by (vm_compute; reflexivity).
  intros Ha Hb. rewrite forallb_forall in Hall.
  specialize (Hall a (proj1 (list_elem_of_In _ _) (Hlt a da Ha))).
  rewrite forallb_forall in Hall.
  specialize (Hall b (proj1 (list_elem_of_In _ _) (Hlt b db Hb))).
  rewrite Ha, Hb in Hall. by apply N.eqb_eq.
Qed.

End decoding.

(** C5. For every byte sequence, writing each byte as two lowercase hex
    digits and decoding the string with [hexToBytes] gives the byte
    sequence back; ["68656c6c6f"] decodes to the five bytes of
    ["hello"]. *)
Theorem hexToBytes_roundtrip :
  (∀ bs : list byte, hexToBytes (bytesToHex bs) = bs) ∧
  hexToBytes (lit "68656c6c6f") = list_byte_of_string "hello".
Proof.
  split; [|reflexivity].
  intros bs. rewrite hexToBytes_decode_pairs.
  induction bs as [|b bs IH]; [done|].
  unfold bytesToHex in *. rewrite bind_cons. cbn [app decode_pairs].
  by rewrite decode_byteToHex, IH.
Qed.

(** C4 (as amended). [hexToBytes] has no failure path. For every string
    it returns one byte per complete pair of code units: byte [k] is
    [parseInt] of the [k]-th pair stored in a [Uint8Array], which is the
    value of the pair when both are hex digits; a code unit left over at
    the end is dropped. [generateSpeech] wraps the result of any
    non-empty inline string as an [audio/mp3] resource. *)
Theorem hexToBytes_never_fails (hex : jsstring) :
  length (hexToBytes hex) = (length hex / 2)%nat ∧
  (∀ k, (k < length hex / 2)%nat →
        hexToBytes hex !! k
        = Some (ToUint8 (parseInt16 (substring hex (2 * k) (2 * k + 2))))) ∧
  (∀ a b da db, digit16 a = Some da → digit16 b = Some db →
        Byte.to_N (ToUint8 (parseInt16 [a; b])) = Z.to_N (16 * da + db)) ∧
  (∀ net text voiceId config modelName response j,
        fetch net (make_request text voiceId config modelName) = Resolved response →
        ok response = true → json response = Resolved j →
        status_code (base_resp j) = 0%Z → data_audio j = Some hex → hex ≠ [] →
        generateSpeech net text voiceId config modelName
        = Return {| blob_bytes := hexToBytes hex; blob_type := lit "audio/mp3" |}).
Proof.
  split; [rewrite hexToBytes_decode_pairs; apply decode_pairs_length|].
  split; [rewrite hexToBytes_decode_pairs; apply decode_pairs_lookup|].
  split; [apply hex_pair_value|].
  intros net text voiceId config modelName response j Hf Hok Hj Hc Ha Hne.
  rewrite (generateSpeech_resolved _ _ _ _ _ _ Hf), (handle_response_ok _ _ j Hok Hj).
  rewrite Hc, Ha. by destruct hex.
Qed.

Lemma hexToBytes_never_fails_witness :
  length (hexToBytes (lit "zz1")) = 1%nat ∧
  hexToBytes (lit "zz1") !! 0%nat = Some x00 ∧
  Byte.to_N (ToUint8 (parseInt16 (lit "6f"))) = 111 ∧
  generateSpeech net_not_hex (lit "Hello") (lit "v1") demo_config DEFAULT_MODEL
  = Return {| blob_bytes := [x00]; blob_type := lit "audio/mp3" |}.
Proof.
  destruct (hexToBytes_never_fails (lit "zz1")) as (H1 & H2 & H3 & _).
  destruct (hexToBytes_never_fails (lit "zz")) as (_ & _ & _ & H4).
  split; [exact H1|]. split; [apply (H2 0%nat); vm_compute; lia|].
  split; [apply (H3 0x36 0x66 6%Z 15%Z); reflexivity|].
  apply (H4 net_not_hex (lit "Hello") (lit "v1") demo_config DEFAULT_MODEL
            (respond 0 "success" (Some (lit "zz")) None)
            {| base_resp := {| status_code := 0; status_msg := lit "success" |};
               data := Some {| audio := Some (lit "zz"); audio_file := None;
                               data_status := Some 2%Z |} |});
    try reflexivity.
  vm_compute. discriminate.
Defined.

(** C4, as stated, fails: inline audio that is not hex (["zz"]) or of
    odd length (["abc"]) is decoded to bytes, and [generateSpeech]
    returns a resource instead of failing. *)
Lemma hexToBytes_malformed_input_decoded :
  hex_shaped (lit "zz") = false ∧ hexToBytes (lit "zz") = [x00] ∧
  hex_shaped (lit "abc") = false ∧ hexToBytes (lit "abc") = [xab] ∧
  generateSpeech net_not_hex (lit "Hello") (lit "v1") demo_config DEFAULT_MODEL
  = Return {| blob_bytes := [x00]; blob_type := lit "audio/mp3" |}.
Proof. repeat split; vm_compute; reflexivity. Qed.

(** ** The adapter: classification of responses *)

(** C3 (as amended). Once the POST is answered, [generateSpeech] throws
    the "API Error" carrying status code and status text exactly when the
    transport status is not a success; otherwise, if the body cannot be
    read as JSON it rethrows that rejection; otherwise it throws the
    "Minimax Error" carrying the embedded message exactly when the
    embedded status code is not 0; otherwise it throws the no-audio-data
    error exactly when neither [data.audio] nor [data.audio_file] is a
    non-empty string; otherwise it returns the decoded inline audio, or,
    for a remote URL, the downloaded resource when the follow-up fetch
    resolves and that fetch's rejection when it does not. *)
Theorem generateSpeech_classification
    net text voiceId config modelName (response : Response) :
  fetch net (make_request text voiceId config modelName) = Resolved response →
  let r := generateSpeech net text voiceId config modelName in
  (ok response = false ↔ ∃ st txt, r = Throw (ApiError st txt)) ∧
  (ok response = false →
     r = Throw (ApiError (http_status response) (statusText response))) ∧
  (ok response = true → ∀ m, json response = Rejected m → r = Throw (Rejection m)) ∧
  (ok response = true → ∀ j, json response = Resolved j →
     (status_code (base_resp j) ≠ 0%Z ↔ ∃ msg, r = Throw (MinimaxError msg)) ∧
     (status_code (base_resp j) ≠ 0%Z →
        r = Throw (MinimaxError (status_msg (base_resp j)))) ∧
     (status_code (base_resp j) = 0%Z →
        (truthy (data_audio j) = false ∧ truthy (data_audio_file j) = false
         ↔ r = Throw NoAudioData) ∧
        (∀ hex, data_audio j = Some hex → hex ≠ [] →
           r = Return {| blob_bytes := hexToBytes hex; blob_type := lit "audio/mp3" |}) ∧
        (∀ u, truthy (data_audio j) = false → data_audio_file j = Some u → u ≠ [] →
           r = await (fetch_blob net u)))).
Proof.
  intros Hf r. subst r. rewrite (generateSpeech_resolved _ _ _ _ _ _ Hf).
  destruct (ok response) eqn:Hok.
  - split; [|split; [done|]].
    { split; [done|]. intros (st & txt & H). exfalso.
      unfold handle_response in H. rewrite Hok in H. cbn [negb] in H.
      destruct (json response) as [j|m]; cbn [await] in H; [|done].
      repeat (case_match; try done).
      destruct (fetch_blob net _); done. }
    split.
    { intros _ m Hm. unfold handle_response. by rewrite Hok, Hm. }
    intros _ j Hj. rewrite (handle_response_ok _ _ j Hok Hj).
    destruct (Z.eqb_spec (status_code (base_resp j)) 0) as [Hc|Hc]; cbn [negb].
    + split; [|split; [done|]].
      { split; [done|]. intros [msg H]. exfalso.
        repeat (case_match; try done). destruct (fetch_blob net _); done. }
      intros _. split; [|split].
      * split.
        -- intros [-> ->]. done.
        -- intros H. destruct (truthy (data_audio j)); [done|].
           destruct (truthy (data_audio_file j)); [|done].
           destruct (fetch_blob net _); done.
      * intros hex -> Hne. by destruct hex.
      * intros u -> -> Hne. by destruct u.
    + split; [|split; [done|]].
      * split; [eauto|done].
      * intros Hc'. done.
  - split; [|split; [|split; done]].
    + split; [|done]. intros _. unfold handle_response. rewrite Hok. eauto.
    + intros _. unfold handle_response. by rewrite Hok.
Qed.

Lemma generateSpeech_classification_witness :
  fetch net_rate_limited (make_request (lit "Hello") (lit "v1") demo_config DEFAULT_MODEL)
  = Resolved (respond 1002 "rate limited" None None) ∧
  generateSpeech net_rate_limited (lit "Hello") (lit "v1") demo_config DEFAULT_MODEL
  = Throw (MinimaxError (lit "rate limited")).
Proof.
  split; [reflexivity|].
  destruct (generateSpeech_classification net_rate_limited (lit "Hello") (lit "v1")
              demo_config DEFAULT_MODEL (respond 1002 "rate limited" None None) eq_refl)
    as (_ & _ & _ & H).
  destruct (H eq_refl _ eq_refl) as (_ & H2 & _).
  apply H2. vm_compute. discriminate.
Defined.

(** C3, as stated, fails: a response with success status, embedded code
    0 and a remote audio URL is one of the "remaining cases", yet
    [generateSpeech] returns no resource when the follow-up fetch is
    rejected; the failure is none of the three the claim lists. *)
Lemma generateSpeech_remote_fetch_rejected :
  let j := {| base_resp := {| status_code := 0; status_msg := lit "success" |};
              data := Some {| audio := None;
                              audio_file := Some (lit "https://cdn.example/a.mp3");
                              data_status := Some 2%Z |} |} in
  let response := {| ok := true; http_status := 200; statusText := lit "OK";
                     json := Resolved j |} in
  fetch net_remote_down (make_request (lit "Hello") (lit "v1") demo_config DEFAULT_MODEL)
  = Resolved response ∧
  generateSpeech net_remote_down (lit "Hello") (lit "v1") demo_config DEFAULT_MODEL
  = Throw (Rejection (Some (lit "Failed to fetch"))).
Proof. repeat split; vm_compute; reflexivity. Qed.

(** C10. When the embedded status is success and [data.audio] is the
    empty string, [generateSpeech] does what it does when the field is
    absent: no resource is made of the empty string; a non-empty
    [data.audio_file] is fetched and its outcome is the result; without
    one the no-audio-data error is thrown. *)
Theorem generateSpeech_empty_audio_as_absent
    net text voiceId config modelName (response : Response) (j : MinimaxResponse) :
  fetch net (make_request text voiceId config modelName) = Resolved response →
  ok response = true → json response = Resolved j →
  status_code (base_resp j) = 0%Z →
  data_audio j = Some [] ∨ data_audio j = None →
  let r := generateSpeech net text voiceId config modelName in
  r = (if truthy (data_audio_file j)
       then await (fetch_blob net (default [] (data_audio_file j)))
       else Throw NoAudioData) ∧
  (∀ u, data_audio_file j = Some u → u ≠ [] → r = await (fetch_blob net u)) ∧
  (data_audio_file j = None ∨ data_audio_file j = Some [] → r = Throw NoAudioData).
Proof.
  intros Hf Hok Hj Hc Ha r. subst r.
  rewrite (generateSpeech_resolved _ _ _ _ _ _ Hf), (handle_response_ok _ _ j Hok Hj), Hc.
  cbn [Z.eqb negb].
  assert (truthy (data_audio j) = false) as -> by (by destruct Ha as [-> | ->]).
  split; [done|]. split.
  - intros u -> Hu. by destruct u.
  - by intros [-> | ->].
Qed.

Lemma generateSpeech_empty_audio_as_absent_witness :
  generateSpeech net_empty_inline (lit "Hello") (lit "v1") demo_config DEFAULT_MODEL
  = Return {| blob_bytes := [x49; x44; x33]; blob_type := lit "audio/mpeg" |}.
Proof.
  destruct (generateSpeech_empty_audio_as_absent net_empty_inline (lit "Hello") (lit "v1")
              demo_config DEFAULT_MODEL
              (respond 0 "success" (Some []) (Some (lit "https://cdn.example/a.mp3")))
              {| base_resp := {| status_code := 0; status_msg := lit "success" |};
                 data := Some {| audio := Some [];
                                 audio_file := Some (lit "https://cdn.example/a.mp3");
                                 data_status := Some 2%Z |} |}
              eq_refl eq_refl eq_refl eq_refl (or_introl eq_refl)) as (_ & H & _).
  apply (H (lit "https://cdn.example/a.mp3")); [reflexivity|vm_compute; discriminate].
Defined.

(** ** Ingestion *)

Section ingestion.

Local Open Scope nat_scope.

Lemma truthy_Some_iff (o : option jsstring) (s : jsstring) :
  o = Some s → (truthy o = true ↔ s ≠ []).
Proof. intros ->. by destruct s. Qed.

Lemma truthy_trim_lookup (row : RawRow) key :
  truthy (trim <$> row !! key) = true ↔ ∃ v, row !! key = Some v ∧ trim v ≠ [].
Proof.
  destruct (row !! key) as [v|]; cbn.
  - rewrite (truthy_Some_iff (Some (trim v)) (trim v) eq_refl). split.
    + intros H. by exists v.
    + by intros (? & [= <-] & H).
  - split; [done|]. by intros (? & ? & _).
Qed.

Lemma valid_iff (row : RawRow) :
  valid (clean row) = true ↔
  ∃ c v t, row !! lit "Character" = Some c ∧ row !! lit "voice_id" = Some v ∧
           row !! lit "text" = Some t ∧ trim c ≠ [] ∧ trim v ≠ [] ∧ trim t ≠ [].
Proof.
  unfold valid, clean. cbn [c_text c_voice_id c_Character].
  rewrite !andb_true_iff, !truthy_trim_lookup. split.
  - intros [[(t & Ht & ?) (v & Hv & ?)] (c & Hc & ?)]. by exists c, v, t.
  - intros (c & v & t & Hc & Hv & Ht & ? & ? & ?). eauto 10.
Qed.

Lemma filter_split_length {A} (P : A → Prop) `{!∀ x, Decision (P x)} (l : list A) :
  length (filter P l) + length (filter (λ x, ¬ P x) l) = length l.
Proof.
  induction l as [|x l IH]; [done|].
  rewrite !filter_cons. destruct (decide (P x)); destruct (decide (¬ P x)); cbn; try done; lia.
Qed.

Lemma optional_column_irrelevant (key : jsstring) (row : RawRow) (v : jsstring) :
  key = lit "Shot Number" ∨ key = lit "emotion" →
  valid (clean (<[key := v]> row)) = valid (clean row) ∧
  valid (clean (delete key row)) = valid (clean row).
Proof.
  intros Hkey.
  assert (key ≠ lit "text" ∧ key ≠ lit "voice_id" ∧ key ≠ lit "Character")
    as (H1 & H2 & H3) by (destruct Hkey as [-> | ->]; repeat split; vm_compute; discriminate).
  unfold valid, clean. cbn [c_text c_voice_id c_Character].
  by rewrite !lookup_insert_ne, !lookup_delete_ne.
Qed.

End ingestion.

(** C6. [parseCSV] trims the five fields of every record and keeps a
    record exactly when its [Character], [voice_id] and [text] are
    present and non-empty after trimming; ['Shot Number'] and [emotion],
    set to anything or missing, do not change the verdict. The result is
    the trimmed rows of the kept records in their order, none of them
    with an empty required field, and kept and dropped records add up to
    the records read. *)
Theorem parseCSV_accepts_complete_rows (data : list RawRow) :
  (∀ row : RawRow,
     valid (clean row) = true ↔
     ∃ c v t, row !! lit "Character" = Some c ∧ row !! lit "voice_id" = Some v ∧
              row !! lit "text" = Some t ∧ trim c ≠ [] ∧ trim v ≠ [] ∧ trim t ≠ []) ∧
  (∀ (key : jsstring) (row : RawRow) (v : jsstring),
     key = lit "Shot Number" ∨ key = lit "emotion" →
     valid (clean (<[key := v]> row)) = valid (clean row) ∧
     valid (clean (delete key row)) = valid (clean row)) ∧
  parseCSV data
  = (λ row, as_ScriptRow (clean row)) <$> filter (λ row, valid (clean row) = true) data ∧
  (∀ (row : RawRow) c v t,
     row !! lit "Character" = Some c → row !! lit "voice_id" = Some v →
     row !! lit "text" = Some t →
     as_ScriptRow (clean row)
     = {| Shot_Number := trim <$> row !! lit "Shot Number"; Character := trim c;
          voice_id := trim v; text := trim t;
          emotion := trim <$> row !! lit "emotion" |}) ∧
  (∀ r, r ∈ parseCSV data → Character r ≠ [] ∧ voice_id r ≠ [] ∧ text r ≠ []) ∧
  (length (parseCSV data) + length (rejected data) = length data)%nat.
Proof.
  split; [apply valid_iff|]. split; [apply optional_column_irrelevant|].
  assert (Heq : parseCSV data
    = (λ row, as_ScriptRow (clean row)) <$> filter (λ row, valid (clean row) = true) data).
  { unfold parseCSV. induction data as [|row data IH]; [done|].
    rewrite fmap_cons, !filter_cons.
    destruct (decide (valid (clean row) = true)); by rewrite ?fmap_cons, IH. }
  split; [exact Heq|]. split; [|split].
  - intros row c v t Hc Hv Ht. unfold as_ScriptRow, clean. cbn. by rewrite Hc, Hv, Ht.
  - intros r Hr. rewrite Heq in Hr.
    apply list_elem_of_fmap in Hr as (row & -> & Hrow).
    apply list_elem_of_filter in Hrow as [Hvalid _].
    apply valid_iff in Hvalid as (c & v & t & Hc & Hv & Ht & ? & ? & ?).
    unfold as_ScriptRow, clean. cbn. by rewrite Hc, Hv, Ht.
  - unfold parseCSV, rejected. rewrite length_fmap.
    rewrite filter_split_length. by rewrite length_fmap.
Qed.

Lemma parseCSV_accepts_complete_rows_witness :
  parseCSV [csv_row "001" "Neo" "v1" " Hello "; csv_row "002" "Neo" "v1" "   ";
            delete (lit "Shot Number") (csv_row "003" "Trinity" "v2" "Run")]
  = [ {| Shot_Number := Some (lit "001"); Character := lit "Neo"; voice_id := lit "v1";
         text := lit "Hello"; emotion := None |};
      {| Shot_Number := None; Character := lit "Trinity"; voice_id := lit "v2";
         text := lit "Run"; emotion := None |} ].
Proof.
  destruct (parseCSV_accepts_complete_rows
              [csv_row "001" "Neo" "v1" " Hello "; csv_row "002" "Neo" "v1" "   ";
               delete (lit "Shot Number") (csv_row "003" "Trinity" "v2" "Run")])
    as (_ & _ & -> & _).
  vm_compute. reflexivity.
Defined.

(** ** The scheduler *)

Section scheduler_claims.

Variable net : nat → Network.

Local Open Scope nat_scope.

Lemma loop_progress L : ∀ s c,
  let r := foldl (process_item net) (s, c) L in
  r.2 = c + length L ∧ total (progress r.1) = total (progress s) ∧
  (L ≠ [] → current (progress r.1) = c + length L).
Proof.
  induction L as [|it L IH]; intros s c; cbv zeta; cbn [foldl fst snd length].
  - split; [lia|]. split; done.
  - pose proof (process_item_frame net s c it) as F. cbv zeta in F.
    destruct F as (_ & _ & _ & _ & _ & F1 & F2).
    destruct (process_item net (s, c) it) as [s1 c1]. cbn [fst snd] in *. subst c1.
    destruct (IH s1 (S c)) as (I1 & I2 & I3).
    split; [lia|]. split; [by rewrite I2, F1|]. intros _.
    destruct L as [|it' L]; [cbn [foldl fst length]; rewrite F1; cbn; lia|].
    rewrite I3 by done. cbn [length]. lia.
Qed.

Lemma processBatch_progress s :
  credentials_given s →
  isProcessing (processBatch net s) = false ∧
  progress (processBatch net s)
  = {| current := length (pendingItems s); total := length (pendingItems s) |}.
Proof.
  intros Hc. rewrite processBatch_given by done. split; [done|].
  unfold run_prefix. rewrite firstn_all. cbn [progress setIsProcessing].
  pose proof (loop_progress (pendingItems s)
    (setProgress (λ _, {| current := 0; total := length (pendingItems s) |})
                 (setIsProcessing true s)) 0) as (_ & Ht & Hcur).
  cbn [fst] in Ht, Hcur.
  destruct (progress _) as [cur tot] eqn:E. cbn in Ht. subst tot. f_equal.
  destruct (pendingItems s) as [|it L] eqn:EL; [by injection E|].
  cbn in Hcur. by apply Hcur.
Qed.

Lemma pendingItems_rank s n it :
  items s !! n = Some it → is_pending it = true → ∃ k, pendingItems s !! k = Some it.
Proof.
  intros Hn Hp. apply list_elem_of_lookup_1. unfold pendingItems.
  apply list_elem_of_filter. split; [done|]. by eapply list_elem_of_lookup_2.
Qed.

(** What a run makes of a selected item. *)
Lemma processBatch_selected s k n it :
  credentials_given s → NoDup (id <$> items s) →
  pendingItems s !! k = Some it → items s !! n = Some it →
  let out := adapter net s (length (calls s) + k) it in
  ∃ u, items (processBatch net s) !! n = Some (settle out u it) ∧
       ∀ blob, out = Return blob → live (store (processBatch net s)) !! u = Some blob.
Proof.
  intros Hc HND Hk Hn out. rewrite processBatch_given by done.
  destruct (run_prefix_selected net s (length (pendingItems s)) k n it HND) as (u & U1 & _ & U2);
    [by eapply lookup_lt_Some|done|done|].
  exists u. done.
Qed.

Lemma processBatch_untouched s n i :
  NoDup (id <$> items s) → items s !! n = Some i → is_pending i = false →
  items (processBatch net s) !! n = Some i.
Proof.
  intros HND Hn Hp. destruct (credentials_given_dec s) as [Hc|Hc].
  - rewrite processBatch_given by done. by apply run_prefix_untouched.
  - by rewrite processBatch_missing.
Qed.

Lemma processBatch_calls s :
  credentials_given s → calls (processBatch net s) = calls s ++ pendingItems s.
Proof.
  intros Hc. rewrite processBatch_given by done. cbn [calls setIsProcessing].
  destruct (run_prefix_frame net s (length (pendingItems s))) as (H & _).
  by rewrite H, firstn_all.
Qed.

End scheduler_claims.

(** C1. In a run with credentials given, whatever the network does:
    the adapter is invoked for every selected item, in order, whether or
    not earlier ones failed; the run reaches its end ([isProcessing] is
    reset, the progress counter equals the number of selected items); and
    every selected item ends with status [success] or [error], never
    [idle] or [loading]: [success] when its invocation returned, [error]
    with the message of the caught exception (or "Unknown error") when it
    threw. [processBatch] itself is total: no exception leaves it. *)
Theorem processBatch_settles_every_selected_item (net : nat → Network) (s : State) :
  credentials_given s → NoDup (id <$> items s) →
  let s' := processBatch net s in
  calls s' = calls s ++ pendingItems s ∧
  isProcessing s' = false ∧
  progress s' = {| current := length (pendingItems s); total := length (pendingItems s) |} ∧
  ∀ k it, pendingItems s !! k = Some it →
    ∃ n i', items s !! n = Some it ∧ items s' !! n = Some i' ∧
      id i' = id it ∧ row i' = row it ∧
      (status i' = success ∨ status i' = error) ∧
      (∀ blob, adapter net s (length (calls s) + k)%nat it = Return blob →
         status i' = success) ∧
      (∀ err, adapter net s (length (calls s) + k)%nat it = Throw err →
         status i' = error ∧
         errorMessage i' = Some (default (lit "Unknown error") (message_of err))).
Proof.
  intros Hc HND s'. subst s'.
  split; [by apply processBatch_calls|].
  destruct (processBatch_progress net s Hc) as [Hp1 Hp2].
  split; [done|]. split; [done|].
  intros k it Hk. destruct (pendingItems_lookup s k it Hk) as [_ [n Hn]].
  destruct (processBatch_selected net s k n it Hc HND Hk Hn) as (u & Hu & _).
  exists n, (settle (adapter net s (length (calls s) + k) it) u it).
  split; [done|]. split; [done|].
  destruct (adapter net s (length (calls s) + k) it) as [blob|err]; cbn.
  - split; [done|]. split; [done|]. split; [by left|]. split; [done|]. by intros.
  - split; [done|]. split; [done|]. split; [by right|]. split; [by intros|].
    by intros ? [= <-].
Qed.

Lemma processBatch_settles_every_selected_item_witness :
  let s := uploaded five_rows in
  let s' := processBatch net_fail_2_4 s in
  credentials_given s ∧ NoDup (id <$> items s) ∧
  (status <$> items s') = [success; error; success; error; success] ∧
  (errorMessage <$> items s')
  = [None; Some (lit "Minimax Error: rate limited"); None;
     Some (lit "Minimax Error: rate limited"); None] ∧
  calls s' = items s ∧ isProcessing s' = false ∧
  progress s' = {| current := 5; total := 5 |}.
Proof.
  assert (Hc : credentials_given (uploaded five_rows)) by (split; vm_compute; discriminate).
  assert (HND : NoDup (id <$> items (uploaded five_rows)))
    by (refine (bool_decide_unpack (NoDup _) _); vm_compute; exact I).
  pose proof (processBatch_settles_every_selected_item net_fail_2_4 (uploaded five_rows)
                Hc HND) as (H1 & H2 & H3 & _).
  split; [exact Hc|]. split; [exact HND|].
  split; [vm_compute; reflexivity|]. split; [vm_compute; reflexivity|].
  split; [rewrite H1; vm_compute; reflexivity|]. split; [exact H2|].
  rewrite H3. vm_compute. reflexivity.
Defined.

Section retries.

Variable net : nat → Network.

Local Open Scope nat_scope.

Lemma processBatch_credentials s :
  credentials_given s → credentials_given (processBatch net s).
Proof.
  intros Hc. rewrite processBatch_given by done.
  destruct (run_prefix_frame net s (length (pendingItems s))) as (_ & Hk & Hg & _).
  unfold credentials_given in *. cbn [apiKeyState groupIdState setIsProcessing].
  by rewrite Hk, Hg.
Qed.

Lemma processBatch_length s : length (items (processBatch net s)) = length (items s).
Proof.
  destruct (credentials_given_dec s) as [Hc|Hc].
  - rewrite processBatch_given by done. cbn [items setIsProcessing].
    destruct (run_prefix_frame net s (length (pendingItems s))) as (_ & _ & _ & _ & H).
    by rewrite <- (length_fmap id (items (run_prefix _ _ _))), H, length_fmap.
  - by rewrite processBatch_missing.
Qed.

Lemma pendingItems_spec s :
  pendingItems s = filter (λ i, status i = idle ∨ status i = error) (items s).
Proof.
  unfold pendingItems. apply list_filter_iff. intros i. unfold is_pending.
  rewrite orb_true_iff, !bool_decide_eq_true. done.
Qed.

Lemma list_of_five {A} (l : list A) a b c d e :
  length l = 5 → l !! 0 = Some a → l !! 1 = Some b → l !! 2 = Some c →
  l !! 3 = Some d → l !! 4 = Some e → l = [a; b; c; d; e].
Proof.
  destruct l as [|? [|? [|? [|? [|? [|? ?]]]]]]; try done.
  cbn. by intros _ [= ->] [= ->] [= ->] [= ->] [= ->].
Qed.

End retries.

(** C2. A run selects exactly the items whose status is [idle] or
    [error], in row order, and invokes the adapter for them one after the
    other in that order: after [j] iterations the first [j] selected items
    have been handled and no other. In particular, for a batch of five
    uploaded rows in which the invocations for the second and the fourth
    throw, the run leaves total 5, succeeded 3, failed 2, and the next run
    selects and handles the second and the fourth item, in that order,
    and nothing else. *)
Theorem processBatch_selects_pending_in_row_order (net : nat → Network) (s : State) :
  credentials_given s →
  pendingItems s = filter (λ i, status i = idle ∨ status i = error) (items s) ∧
  calls (processBatch net s) = calls s ++ pendingItems s ∧
  (∀ j, calls (run_prefix net s j) = calls s ++ take j (pendingItems s)) ∧
  (∀ now r1 r2 r3 r4 r5 b1 e2 b3 e4 b5,
     items s = newItems now [r1; r2; r3; r4; r5] →
     (∀ k it out, items s !! k = Some it →
        [Return b1; Throw e2; Return b3; Throw e4; Return b5] !! k = Some out →
        adapter net s (length (calls s) + k)%nat it = out) →
     let s1 := processBatch net s in
     stats s1 = {| st_total := 5; st_success := 3; st_error := 2; st_pending := 0 |} ∧
     ∃ i2 i4, items s1 !! 1%nat = Some i2 ∧ items s1 !! 3%nat = Some i4 ∧
              id <$> items s !! 1%nat = Some (id i2) ∧
              id <$> items s !! 3%nat = Some (id i4) ∧
              pendingItems s1 = [i2; i4] ∧
              calls (processBatch net s1) = calls s1 ++ [i2; i4]).
Proof.
  intros Hc. split; [apply pendingItems_spec|].
  split; [by apply processBatch_calls|].
  split; [intros j; by destruct (run_prefix_frame net s j) as (H & _)|].
  intros now r1 r2 r3 r4 r5 b1 e2 b3 e4 b5 Hitems Hout s1.
  assert (HND : NoDup (id <$> items s)) by (rewrite Hitems; apply newItems_ids_NoDup).
  assert (Hpend : pendingItems s = items s).
  { unfold pendingItems. rewrite Hitems. reflexivity. }
  assert (Hsel : ∀ n it out, items s !! n = Some it →
            [Return b1; Throw e2; Return b3; Throw e4; Return b5] !! n = Some out →
            ∃ u, items s1 !! n = Some (settle out u it)).
  { intros n it out Hn Ho.
    destruct (processBatch_selected net s n n it Hc HND) as (u & Hu & _);
      [by rewrite Hpend|done|].
    rewrite (Hout n it out Hn Ho) in Hu. by exists u. }
  rewrite Hitems in Hsel.
  destruct (Hsel 0%nat _ _ eq_refl eq_refl) as [u0 H0].
  destruct (Hsel 1%nat _ _ eq_refl eq_refl) as [u1 H1].
  destruct (Hsel 2%nat _ _ eq_refl eq_refl) as [u2 H2].
  destruct (Hsel 3%nat _ _ eq_refl eq_refl) as [u3 H3].
  destruct (Hsel 4%nat _ _ eq_refl eq_refl) as [u4 H4].
  assert (Hlen : length (items s1) = 5%nat).
  { subst s1. rewrite processBatch_length, Hitems. reflexivity. }
  pose proof (list_of_five _ _ _ _ _ _ Hlen H0 H1 H2 H3 H4) as Hs1.
  split.
  - unfold stats. rewrite Hs1. reflexivity.
  - eexists _, _. split; [exact H1|]. split; [exact H3|].
    rewrite Hitems. split; [reflexivity|]. split; [reflexivity|].
    assert (pendingItems s1 = [_; _]) as <-
      by (unfold pendingItems; rewrite Hs1; reflexivity).
    split; [reflexivity|].
    apply processBatch_calls. by apply processBatch_credentials.
Qed.

Lemma processBatch_selects_pending_in_row_order_witness :
  let s := uploaded five_rows in
  let s1 := processBatch net_fail_2_4 s in
  credentials_given s ∧
  stats s1 = {| st_total := 5; st_success := 3; st_error := 2; st_pending := 0 |} ∧
  (Shot_Number ∘ row <$> pendingItems s1) = [Some (lit "002"); Some (lit "004")] ∧
  (Shot_Number ∘ row <$> drop (length (calls s1)) (calls (processBatch net_fail_2_4 s1)))
  = [Some (lit "002"); Some (lit "004")].
Proof.
  assert (Hc : credentials_given (uploaded five_rows)) by (split; vm_compute; discriminate).
  pose proof (processBatch_selects_pending_in_row_order net_fail_2_4 (uploaded five_rows) Hc)
    as (_ & _ & _ & H).
  destruct (H 1700000000000%N
              (script_row "001" "Neo" "v1" "Hello") (script_row "002" "Trinity" "v2" "Follow me")
              (script_row "003" "Neo" "v1" "Where") (script_row "004" "Morpheus" "v3" "Welcome")
              (script_row "005" "Neo" "v1" "Whoa")
              hello_blob (MinimaxError (lit "rate limited")) hello_blob
              (MinimaxError (lit "rate limited")) hello_blob)
    as (Hstats & i2 & i4 & H2 & H4 & _ & _ & Hp & Hcalls).
  - vm_compute. reflexivity.
  - intros k it out Hit Ho.
    do 5 (destruct k as [|k];
          [vm_compute in Hit; injection Hit as <-; injection Ho as <-;
           vm_compute; reflexivity|]).
    discriminate Ho.
  - split; [exact Hc|]. split; [exact Hstats|].
    vm_compute in H2, H4. injection H2 as <-. injection H4 as <-.
    split; [rewrite Hp; vm_compute; reflexivity|].
    rewrite Hcalls, drop_app_length. vm_compute. reflexivity.
Defined.

(** C7. An item that is [error] with a message, selected again by a run
    in which its invocation of the adapter returns a resource, ends
    the run [success], holding the object URL of that resource, which
    is live in the URL store, and with no error message. *)
Theorem processBatch_retry_clears_error
    (net : nat → Network) (s : State) (n k : nat) (it : ProcessingItem)
    (msg : jsstring) (blob : Blob) :
  credentials_given s → NoDup (id <$> items s) →
  items s !! n = Some it → status it = error → errorMessage it = Some msg →
  pendingItems s !! k = Some it →
  adapter net s (length (calls s) + k)%nat it = Return blob →
  ∃ u, items (processBatch net s) !! n
       = Some {| id := id it; row := row it; status := success;
                 audioUrl := Some u; errorMessage := None |} ∧
       live (store (processBatch net s)) !! u = Some blob.
Proof.
  intros Hc HND Hn _ _ Hk Hout.
  destruct (processBatch_selected net s k n it Hc HND Hk Hn) as (u & Hu & Hlive).
  rewrite Hout in Hu. exists u. split; [exact Hu|]. by apply Hlive.
Qed.

Lemma processBatch_retry_clears_error_witness :
  let s := processBatch net_fail_first (uploaded [csv_row "001" "Neo" "v1" "Hello"]) in
  (errorMessage <$> items s) = [Some (lit "Minimax Error: rate limited")] ∧
  ∃ u, items (processBatch net_fail_first s) !! 0%nat
       = Some {| id := lit "0-1700000000000"; row := script_row "001" "Neo" "v1" "Hello";
                 status := success; audioUrl := Some u; errorMessage := None |} ∧
       live (store (processBatch net_fail_first s)) !! u = Some hello_blob.
Proof.
  split; [vm_compute; reflexivity|].
  destruct (processBatch_retry_clears_error net_fail_first
              (processBatch net_fail_first (uploaded [csv_row "001" "Neo" "v1" "Hello"]))
              0 0
              {| id := lit "0-1700000000000"; row := script_row "001" "Neo" "v1" "Hello";
                 status := error; audioUrl := None;
                 errorMessage := Some (lit "Minimax Error: rate limited") |}
              (lit "Minimax Error: rate limited") hello_blob)
    as (u & Hu & Hlive).
  - split; vm_compute; discriminate.
  - refine (bool_decide_unpack (NoDup _) _). vm_compute. exact I.
  - vm_compute. reflexivity.
  - reflexivity.
  - reflexivity.
  - vm_compute. reflexivity.
  - vm_compute. reflexivity.
  - exists u. split; [exact Hu|exact Hlive].
Defined.

(** C9. A run leaves every item that is [success] when it starts as it
    is: status, object URL, error field and row. A run over items that
    are all [success] selects nothing, invokes the adapter for nothing and
    changes neither the items nor the URL store. *)
Theorem processBatch_leaves_succeeded_items (net : nat → Network) (s : State) :
  NoDup (id <$> items s) →
  (∀ n i, items s !! n = Some i → status i = success →
          items (processBatch net s) !! n = Some i) ∧
  ((∀ i, i ∈ items s → status i = success) →
     pendingItems s = [] ∧ items (processBatch net s) = items s ∧
     store (processBatch net s) = store s ∧ calls (processBatch net s) = calls s).
Proof.
  intros HND. split.
  - intros n i Hn Hs. apply processBatch_untouched; [done..|].
    unfold is_pending. by rewrite Hs.
  - intros Hall.
    assert (Hp : pendingItems s = []).
    { unfold pendingItems. destruct (filter _ _) as [|i l] eqn:E; [done|].
      assert (Hi : i ∈ filter (λ i, is_pending i = true) (items s)) by (rewrite E; left).
      apply list_elem_of_filter in Hi as [Hp Hin].
      unfold is_pending in Hp. by rewrite (Hall i Hin) in Hp. }
    split; [done|].
    destruct (credentials_given_dec s) as [Hc|Hc].
    + rewrite processBatch_given by done. unfold run_prefix. by rewrite Hp.
    + by rewrite processBatch_missing.
Qed.

Lemma processBatch_leaves_succeeded_items_witness :
  let s := processBatch (λ _, net_hello) (uploaded five_rows) in
  (status <$> items s) = [success; success; success; success; success] ∧
  items (processBatch net_fail_2_4 s) = items s ∧
  calls (processBatch net_fail_2_4 s) = calls s.
Proof.
  split; [vm_compute; reflexivity|].
  destruct (processBatch_leaves_succeeded_items net_fail_2_4
              (processBatch (λ _, net_hello) (uploaded five_rows))) as [_ H].
  - refine (bool_decide_unpack (NoDup _) _). vm_compute. exact I.
  - destruct H as (_ & Hi & _ & Hcalls); [|by split].
    apply Forall_forall. refine (bool_decide_unpack (Forall _ _) _). vm_compute. exact I.
Defined.

(** ** Audio handles *)

(** C8 (as amended). In every state the page can reach, and after every
    iteration of a run started there, each item holds at most one object
    URL, that URL is live in the URL store, no other item holds it, and
    only a [success] item holds one. A run never replaces the URL an item
    holds: such an item is left as it is. Nothing is ever released: a URL
    live before a run is live after it, and [Clear] empties the item list
    but leaves every URL live in the store. *)
Theorem handles_kept_and_never_released (net : nat → Network) (s : State) :
  reachable net s →
  handles_ok s ∧
  (∀ j, handles_ok (run_prefix net s j)) ∧
  (∀ n i u, items s !! n = Some i → audioUrl i = Some u →
            items (processBatch net s) !! n = Some i) ∧
  (∀ u blob, live (store s) !! u = Some blob →
             live (store (processBatch net s)) !! u = Some blob ∧
             live (store (clear s)) !! u = Some blob ∧ items (clear s) = []).
Proof.
  intros Hr. pose proof (reachable_handles_ok net s Hr) as Hok.
  split; [done|]. split; [intros j; by apply run_prefix_handles_ok|]. split.
  - intros n i u Hn Hu. apply processBatch_untouched; [by apply ids_NoDup|done|].
    unfold is_pending. by rewrite (handle_success s Hok n i u Hn Hu).
  - intros u blob Hu. split; [|done].
    destruct (credentials_given_dec s) as [Hc|Hc].
    + rewrite processBatch_given by done. cbn [store setIsProcessing].
      destruct (run_prefix_store net s (length (pendingItems s))) as [_ M].
      rewrite M; [done|]. apply (store_fresh s Hok). by rewrite Hu.
    + by rewrite processBatch_missing.
Qed.

Lemma handles_kept_and_never_released_witness :
  let s := processBatch net_fail_2_4 (uploaded five_rows) in
  reachable net_fail_2_4 s ∧
  (audioUrl <$> items s) = [Some 0%N; None; Some 1%N; None; Some 2%N] ∧
  (audioUrl <$> items (processBatch net_fail_2_4 s))
  = [Some 0%N; Some 3%N; Some 1%N; Some 4%N; Some 2%N] ∧
  live (store (processBatch net_fail_2_4 s)) !! 0%N = Some hello_blob ∧
  live (store (clear s)) !! 0%N = Some hello_blob.
Proof.
  assert (Hr : reachable net_fail_2_4 (processBatch net_fail_2_4 (uploaded five_rows)))
    by apply reach_run, reach_upload, reach_initial.
  destruct (handles_kept_and_never_released net_fail_2_4 _ Hr) as (_ & _ & _ & H).
  destruct (H 0%N hello_blob) as (H1 & H2 & _); [vm_compute; reflexivity|].
  split; [exact Hr|]. split; [vm_compute; reflexivity|].
  split; [vm_compute; reflexivity|]. split; [exact H1|exact H2].
Defined.

(** C8, as stated, fails: after a run that gave the only item of a batch
    an object URL, [Clear] removes the item, and the URL created for it is
    still live in the URL store with its blob. *)
Lemma clear_releases_no_handle :
  let s := processBatch (λ _, net_hello) (uploaded [csv_row "001" "Neo" "v1" "Hello"]) in
  (audioUrl <$> items s) = [Some 0%N] ∧
  live (store s) !! 0%N = Some hello_blob ∧
  items (clear s) = [] ∧
  live (store (clear s)) !! 0%N = Some hello_blob.
Proof. repeat split; vm_compute; reflexivity. Qed.

(** * Further properties *)

(** ** White space *)

Section text.

Lemma trimStart_ws ws s : Forall (λ c, isWhiteSpace c = true) ws → trimStart (ws ++ s) = trimStart s.
Proof. induction 1 as [|c ws Hc _ IH]; [done|]. cbn. by rewrite Hc. Qed.

Lemma trimStart_all_ws s : Forall (λ c, isWhiteSpace c = true) s ↔ trimStart s = [].
Proof.
  induction s as [|c s IH]; [done|]. cbn. destruct (isWhiteSpace c) eqn:E.
  - rewrite <- IH, Forall_cons. split; [by intros [_ ?]|by split].
  - split; [|done]. intros H. apply Forall_cons in H as [H _]. congruence.
Qed.

Lemma trimStart_app s q :
  trimStart (s ++ q) = match trimStart s with [] => trimStart q | _ => trimStart s ++ q end.
Proof.
  induction s as [|c s IH]; cbn; [by destruct (trimStart q)|].
  destruct (isWhiteSpace c); [done|]. done.
Qed.

Lemma trimStart_head s :
  match trimStart s with [] => True | c :: _ => isWhiteSpace c = false end.
Proof. induction s as [|c s IH]; [done|]. cbn. by destruct (isWhiteSpace c) eqn:E; [|cbn]. Qed.

Lemma trimStart_fixed s :
  match s with [] => True | c :: _ => isWhiteSpace c = false end → trimStart s = s.
Proof. destruct s as [|c s]; [done|]. cbn. by intros ->. Qed.

Lemma trimStart_suffix s : ∃ ws, s = ws ++ trimStart s ∧ Forall (λ c, isWhiteSpace c = true) ws.
Proof.
  induction s as [|c s (ws & IH & Hws)]; [by exists []|]. cbn.
  destruct (isWhiteSpace c) eqn:E; [|by exists []].
  exists (c :: ws). split; [by rewrite IH at 1|]. by constructor.
Qed.

Lemma trimEnd_prefix s : ∃ ws, s = trimEnd s ++ ws ∧ Forall (λ c, isWhiteSpace c = true) ws.
Proof.
  unfold trimEnd. destruct (trimStart_suffix (reverse s)) as (ws & H & Hws).
  exists (reverse ws). split; [|by apply Forall_reverse].
  rewrite <- reverse_app, <- H. by rewrite reverse_involutive.
Qed.

Lemma trim_trimmed s : trimmed (trim s).
Proof.
  unfold trimmed, trim. split.
  - pose proof (trimStart_head s) as Hh.
    destruct (trimEnd_prefix (trimStart s)) as (ws & H & _).
    destruct (trimEnd (trimStart s)) as [|c r]; [done|]. rewrite H in Hh. done.
  - unfold trimEnd. rewrite reverse_involutive. apply trimStart_head.
Qed.

Lemma trimmed_trim s : trimmed s → trim s = s.
Proof.
  intros [Hh Hl]. unfold trim, trimEnd. rewrite (trimStart_fixed s Hh).
  rewrite (trimStart_fixed _ Hl). apply reverse_involutive.
Qed.

Lemma trim_padding p s q :
  Forall (λ c, isWhiteSpace c = true) p → Forall (λ c, isWhiteSpace c = true) q →
  trim (p ++ s ++ q) = trim s.
Proof.
  intros Hp Hq. unfold trim. rewrite (trimStart_ws p _ Hp), trimStart_app.
  destruct (trimStart s) as [|c r] eqn:E.
  - by rewrite (proj1 (trimStart_all_ws q) Hq).
  - unfold trimEnd. rewrite reverse_app. rewrite trimStart_ws; [done|].
    by apply Forall_reverse.
Qed.

Lemma trim_all_ws s : Forall (λ c, isWhiteSpace c = true) s ↔ trim s = [].
Proof.
  split.
  - intros H. pose proof (trim_padding s [] [] H (Forall_nil_2 _)) as E.
    by rewrite !app_nil_r in E.
  - intros H. destruct (trimStart_suffix s) as (ws & Hs & Hws).
    destruct (trimEnd_prefix (trimStart s)) as (ws' & Hs' & Hws').
    unfold trim in H. rewrite H in Hs'. rewrite Hs, Hs'. by apply Forall_app.
Qed.

End text.



(** X2. Every field of a row [parseCSV] returns has no white space at
    either end. A record whose [Character], [voice_id] or [text] consists
    of white space only is dropped. *)
Theorem parseCSV_fields_trimmed (data : list RawRow) :
  (∀ r, r ∈ parseCSV data →
     trimmed (Character r) ∧ trimmed (voice_id r) ∧ trimmed (text r) ∧
     (∀ v, Shot_Number r = Some v → trimmed v) ∧ (∀ v, emotion r = Some v → trimmed v)) ∧
  (∀ (row : RawRow) (key v : jsstring),
     key = lit "Character" ∨ key = lit "voice_id" ∨ key = lit "text" →
     row !! key = Some v → Forall (λ c, isWhiteSpace c = true) v →
     valid (clean row) = false ∧ parseCSV [row] = []).
Proof.
  split.
  - intros r Hr. unfold parseCSV in Hr.
    apply list_elem_of_fmap in Hr as (cr & -> & Hcr).
    apply list_elem_of_filter in Hcr as [Hvalid Hcr].
    apply list_elem_of_fmap in Hcr as (row & -> & _).
    apply valid_iff in Hvalid as (c & v & t & Hc & Hv & Ht & _).
    unfold as_ScriptRow, clean. cbn. rewrite Hc, Hv, Ht. cbn.
    split; [apply trim_trimmed|]. split; [apply trim_trimmed|].
    split; [apply trim_trimmed|]. split.
    + intros x Hx. destruct (row !! lit "Shot Number"); [|done].
      injection Hx as <-. apply trim_trimmed.
    + intros x Hx. destruct (row !! lit "emotion"); [|done].
      injection Hx as <-. apply trim_trimmed.
  - intros row key v Hkey Hv Hws.
    assert (Hf : valid (clean row) = false).
    { apply trim_all_ws in Hws. apply not_true_is_false. intros Hvalid.
      apply valid_iff in Hvalid as (c & v' & t & Hc & Hv' & Ht & ? & ? & ?).
      destruct Hkey as [-> | [-> | ->]]; congruence. }
    split; [done|]. unfold parseCSV. change (clean <$> [row]) with [clean row].
    rewrite filter_cons.
    destruct (decide (valid (clean row) = true)) as [E|E]; [congruence|done].
Qed.

Lemma parseCSV_fields_trimmed_witness :
  trimmed (lit "Hello") ∧ parseCSV [csv_row "001" "Neo" "v1" "  "] = [].
Proof.
  destruct (parseCSV_fields_trimmed [csv_row "001" "Neo" "v1" " Hello "]) as [H1 H2].
  split.
  - destruct (H1 (script_row "001" "Neo" "v1" "Hello")) as (_ & _ & Ht & _); [|exact Ht].
    vm_compute. apply list_elem_of_here.
  - apply (H2 (csv_row "001" "Neo" "v1" "  ") (lit "text") (lit "  ")).
    + right. by right.
    + vm_compute. reflexivity.
    + refine (bool_decide_unpack (Forall _ _) _). vm_compute. exact I.
Defined.

Section hex_more.

Local Open Scope nat_scope.

Lemma decode_pairs_app s1 s2 :
  Nat.even (length s1) = true → decode_pairs (s1 ++ s2) = decode_pairs s1 ++ decode_pairs s2.
Proof.
  remember (length s1) as n eqn:Hn. revert s1 Hn.
  induction n as [n IH] using lt_wf_ind; intros s1 -> Hev.
  destruct s1 as [|a [|b r]]; [by destruct s2 as [|? [|? ?]]|done|].
  cbn [app decode_pairs]. f_equal. apply (IH (length r)); [cbn; lia|done|done].
Qed.

Lemma hex_pair_lower a b :
  is_Some (digit16 a) → is_Some (digit16 b) →
  bytesToHex [ToUint8 (parseInt16 [a; b])] = [lowerHex a; lowerHex b].
Proof.
  assert (Hlt : ∀ c, is_Some (digit16 c) → c ∈ N.of_nat <$> seq 0 103).
  { intros c [d Hc]. apply list_elem_of_fmap. exists (N.to_nat c).
    split; [by rewrite N2Nat.id|]. apply elem_of_seq.
    assert (c < 103)%N; [|lia].
    unfold digit16 in Hc.
    destruct (_ && _) eqn:E1 in Hc; [apply andb_prop in E1 as [_ E1%N.leb_le]; lia|].
    destruct (_ && _) eqn:E2 in Hc; [apply andb_prop in E2 as [_ E2%N.leb_le]; lia|].
    destruct (_ && _) eqn:E3 in Hc; [apply andb_prop in E3 as [_ E3%N.leb_le]; lia|done]. }
  assert (Hall :
    forallb (λ a, forallb (λ b,
      match digit16 a, digit16 b with
      | Some _, Some _ =>
          bool_decide (bytesToHex [ToUint8 (parseInt16 [a; b])] = [lowerHex a; lowerHex b])
      | _, _ => true
      end) (N.of_nat <$> seq 0 103)) (N.of_nat <$> seq 0 103) = true)
    by (vm_compute; reflexivity).
  intros Ha Hb. rewrite forallb_forall in Hall.
  specialize (Hall a (proj1 (list_elem_of_In _ _) (Hlt a Ha))).
  rewrite forallb_forall in Hall.
  specialize (Hall b (proj1 (list_elem_of_In _ _) (Hlt b Hb))).
  destruct Ha as [da Ha], Hb as [db Hb]. rewrite Ha, Hb in Hall.
  by apply bool_decide_eq_true in Hall.
Qed.

End hex_more.

(** X3. [hexToBytes] decodes piecewise: decoding a concatenation whose
    first part has even length gives the bytes of the first part followed
    by the bytes of the second. *)
Theorem hexToBytes_app (s1 s2 : jsstring) :
  Nat.even (length s1) = true →
  hexToBytes (s1 ++ s2) = hexToBytes s1 ++ hexToBytes s2.
Proof. intros H. rewrite !hexToBytes_decode_pairs. by apply decode_pairs_app. Qed.

Lemma hexToBytes_app_witness :
  hexToBytes (lit "6865" ++ lit "6c6c6f") = hexToBytes (lit "6865") ++ hexToBytes (lit "6c6c6f").
Proof. apply hexToBytes_app. reflexivity. Defined.

(** X4. On a string of an even number of hex digits, decoding with
    [hexToBytes] and writing the bytes back as lowercase hex gives the
    string with its uppercase digits lowered: upper and lower case decode
    alike, and nothing else is lost. *)
Theorem bytesToHex_hexToBytes (s : jsstring) :
  hex_shaped s = true → bytesToHex (hexToBytes s) = lowerHex <$> s.
Proof.
  rewrite hexToBytes_decode_pairs. unfold hex_shaped.
  remember (length s) as n eqn:Hn. revert s Hn.
  induction n as [n IH] using lt_wf_ind; intros s -> H.
  apply andb_prop in H as [Hev Hall].
  destruct s as [|a [|b r]]; [done|done|].
  cbn [forallb] in Hall. apply andb_prop in Hall as [Ha Hall].
  apply andb_prop in Hall as [Hb Hall].
  apply bool_decide_eq_true in Ha, Hb.
  cbn [decode_pairs]. rewrite !fmap_cons.
  change (bytesToHex (?x :: ?l)) with (bytesToHex [x] ++ bytesToHex l).
  rewrite (hex_pair_lower a b Ha Hb). cbn [app]. do 2 f_equal.
  apply (IH (length r)); [cbn; lia|done|]. by rewrite Hall, andb_true_r.
Qed.

Lemma bytesToHex_hexToBytes_witness :
  bytesToHex (hexToBytes (lit "4A6f")) = lit "4a6f".
Proof. rewrite bytesToHex_hexToBytes; reflexivity. Defined.

(** X5. [downloadBlob], on a page whose URL store has never handed out
    its next URL, starts exactly one download, of the given blob under
    the given file name, and leaves the body and the set of live object
    URLs as they were: the URL it creates is live when the anchor is
    clicked and revoked afterwards. *)
Theorem downloadBlob_releases_its_url (blob : Blob) (filename : jsstring) (p : Page) :
  (∀ u, is_Some (live (page_store p) !! u) → u < next (page_store p)) →
  let p' := downloadBlob blob filename p in
  downloads p' = downloads p ++ [(filename, Some blob)] ∧
  body_children p' = body_children p ∧
  live (page_store p') = live (page_store p) ∧
  live (page_store p') !! next (page_store p) = None ∧
  next (page_store p') = N.succ (next (page_store p)).
Proof.
  intros Hfresh p'. subst p'. unfold downloadBlob, createObjectURL, click, revokeObjectURL.
  cbn [page_store body_children downloads live next href download].
  assert (Hnone : live (page_store p) !! next (page_store p) = None).
  { destruct (live (page_store p) !! next (page_store p)) eqn:E; [|done].
    assert (next (page_store p) < next (page_store p)); [|lia].
    apply Hfresh. by rewrite E. }
  rewrite lookup_insert_eq, delete_insert_id by done.
  split; [done|]. split; [|done].
  rewrite delete_middle. apply app_nil_r.
Qed.

Lemma downloadBlob_releases_its_url_witness :
  let p := {| page_store := store (processBatch (λ _, net_hello) (uploaded five_rows));
              body_children := []; downloads := [] |} in
  downloads (downloadBlob hello_blob (lit "001_Neo.mp3") p)
  = [(lit "001_Neo.mp3", Some hello_blob)] ∧
  live (page_store (downloadBlob hello_blob (lit "001_Neo.mp3") p)) = live (page_store p).
Proof.
  destruct (downloadBlob_releases_its_url hello_blob (lit "001_Neo.mp3")
              {| page_store := store (processBatch (λ _, net_hello) (uploaded five_rows));
                 body_children := []; downloads := [] |}) as (H1 & _ & H3 & _).
  - apply (store_fresh (processBatch (λ _, net_hello) (uploaded five_rows))).
    apply (reachable_handles_ok (λ _, net_hello)).
    apply reach_run, reach_upload, reach_initial.
  - split; [exact H1|exact H3].
Defined.

Section upload.

Local Open Scope nat_scope.

Lemma filter_all {A} (P : A → Prop) `{!∀ x, Decision (P x)} (l : list A) :
  Forall P l → filter P l = l.
Proof.
  induction 1 as [|x l Hx _ IH]; [done|]. rewrite filter_cons.
  destruct (decide (P x)); [by rewrite IH|done].
Qed.

Lemma filter_none {A} (P : A → Prop) `{!∀ x, Decision (P x)} (l : list A) :
  Forall (λ x, ¬ P x) l → filter P l = [].
Proof.
  induction 1 as [|x l Hx _ IH]; [done|]. rewrite filter_cons.
  destruct (decide (P x)); [done|by rewrite IH].
Qed.

Lemma newItems_fresh now rows :
  Forall (λ i, status i = idle ∧ audioUrl i = None ∧ errorMessage i = None)
         (newItems now rows).
Proof.
  apply Forall_lookup. intros n i Hn.
  apply newItems_lookup in Hn as (? & ? & ? & _). done.
Qed.


End upload.



Section runs_more.

Variable net : nat → Network.

Local Open Scope nat_scope.

Lemma process_item_rows s c it :
  row <$> items (process_item net (s, c) it).1 = row <$> items s.
Proof.
  rewrite (process_item_items net), <- list_fmap_compose.
  apply list_fmap_ext; intros _ i _; cbn.
  case_bool_decide; [|done]. unfold settle. by destruct (adapter _ _ _ _).
Qed.

Lemma loop_rows L : ∀ s c,
  row <$> items (foldl (process_item net) (s, c) L).1 = row <$> items s.
Proof.
  induction L as [|it L IH]; intros s c; cbn [foldl fst]; [done|].
  pose proof (process_item_rows s c it) as H.
  destruct (process_item net (s, c) it) as [s1 c1]. cbn [fst] in H.
  by rewrite IH.
Qed.



(** Every item of the state after a run comes from the item at the same
    place before it: left alone if it was not selected, settled by its
    invocation of the adapter if it was. *)
Lemma processBatch_lookup_inv s n i' :
  credentials_given s → NoDup (id <$> items s) →
  items (processBatch net s) !! n = Some i' →
  ∃ i, items s !! n = Some i ∧
       ((is_pending i = false ∧ i' = i) ∨
        (is_pending i = true ∧
         ∃ k u, pendingItems s !! k = Some i ∧
                i' = settle (adapter net s (length (calls s) + k) i) u i)).
Proof.
  intros Hc HND Hn.
  assert (Hlt : n < length (items s)).
  { rewrite <- (processBatch_length net s). by eapply lookup_lt_Some. }
  apply lookup_lt_is_Some in Hlt as [i Hi]. exists i. split; [done|].
  destruct (is_pending i) eqn:Hp.
  - right. split; [done|]. destruct (pendingItems_rank s n i Hi Hp) as [k Hk].
    destruct (processBatch_selected net s k n i Hc HND Hk Hi) as (u & Hu & _).
    exists k, u. split; [done|]. congruence.
  - left. split; [done|].
    pose proof (processBatch_untouched net s n i HND Hi Hp). congruence.
Qed.

Lemma newItems_item_ok now rows : Forall item_ok (newItems now rows).
Proof.
  eapply Forall_impl; [apply newItems_fresh|].
  intros i (Hs & Hu & He). unfold item_ok. rewrite Hs, Hu, He.
  split; [done|]. split; (split; [by intros [? ?]|done]).
Qed.

Lemma settle_item_ok out u i :
  is_pending i = true → item_ok i → item_ok (settle out u i).
Proof.
  intros Hp (_ & Hu & _). unfold item_ok.
  assert (audioUrl i = None) as Hnone.
  { destruct (audioUrl i) eqn:E; [|done]. unfold is_pending in Hp.
    rewrite (proj1 Hu) in Hp by (by eexists). done. }
  destruct out as [blob|err]; cbn; [|rewrite Hnone].
  - split; [done|]. split; (split; [done|]); [by intros _; eexists|done].
  - split; [done|]. split; (split; [by intros [? ?]|]); [done|by intros _; eexists].
Qed.

Lemma processBatch_item_ok s :
  NoDup (id <$> items s) → Forall item_ok (items s) → Forall item_ok (items (processBatch net s)).
Proof.
  intros HND Hok. destruct (credentials_given_dec s) as [Hc|Hc].
  - apply Forall_lookup. intros n i' Hn.
    destruct (processBatch_lookup_inv s n i' Hc HND Hn) as (i & Hi & [[_ ->]|(Hp & k & u & _ & ->)]).
    + by eapply Forall_lookup_1.
    + apply settle_item_ok; [done|]. by eapply Forall_lookup_1.
  - by rewrite processBatch_missing.
Qed.

Lemma reachable_item_ok s : reachable net s → Forall item_ok (items s).
Proof.
  induction 1 as [k g|v s _ IH|v s _ IH|now file s _ IH|s Hr IH|s _ IH].
  - constructor.
  - exact IH.
  - exact IH.
  - unfold handleFileUpload. destruct file as [[data|m]|]; [|done..].
    destruct (length (parseCSV data) =? 0); [done|]. apply newItems_item_ok.
  - apply processBatch_item_ok; [|done]. by apply ids_NoDup, (reachable_handles_ok net).
  - constructor.
Qed.

End runs_more.



Section stats_facts.

Local Open Scope nat_scope.

Lemma status_partition (l : list ProcessingItem) :
  length (filter (λ i, status i = success) l) + length (filter (λ i, status i = error) l)
  + length (filter (λ i, status i = idle ∨ status i = loading) l) = length l.
Proof.
  induction l as [|i l IH]; [done|]. rewrite !filter_cons.
  destruct (status i) eqn:E;
    repeat (first [rewrite decide_True by (intuition congruence)
                  |rewrite decide_False by (intuition congruence)]);
    cbn [length]; lia.
Qed.

End stats_facts.

(** X15. The stats partition the items: the total is the number of
    items, [pending] is the number of items that are [idle] or [loading]
    (its subtraction never underflows), and success, error and pending
    add up to the total. *)
Theorem stats_partition (s : State) :
  st_total (stats s) = length (items s) ∧
  st_pending (stats s)
  = length (filter (λ i, status i = idle ∨ status i = loading) (items s)) ∧
  (st_success (stats s) + st_error (stats s) + st_pending (stats s) = st_total (stats s))%nat.
Proof.
  pose proof (status_partition (items s)) as H. unfold stats. cbn. lia.
Qed.

(** X8. A run, and every iteration of it, changes neither the
    identities nor the rows of the items, nor their number and order, nor
    the credentials. *)
Theorem processBatch_keeps_rows (net : nat → Network) (s : State) :
  id <$> items (processBatch net s) = id <$> items s ∧
  row <$> items (processBatch net s) = row <$> items s ∧
  apiKeyState (processBatch net s) = apiKeyState s ∧
  groupIdState (processBatch net s) = groupIdState s ∧
  ∀ j, id <$> items (run_prefix net s j) = id <$> items s ∧
       row <$> items (run_prefix net s j) = row <$> items s.
Proof.
  assert (Hrun : ∀ j, id <$> items (run_prefix net s j) = id <$> items s ∧
                      row <$> items (run_prefix net s j) = row <$> items s).
  { intros j. split; [by destruct (run_prefix_frame net s j) as (_ & _ & _ & _ & H)|].
    unfold run_prefix. by rewrite loop_rows. }
  destruct (credentials_given_dec s) as [Hc|Hc].
  - rewrite processBatch_given by done. cbn [items apiKeyState groupIdState setIsProcessing].
    destruct (Hrun (length (pendingItems s))) as [H1 H2].
    destruct (run_prefix_frame net s (length (pendingItems s))) as (_ & Hk & Hg & _).
    done.
  - rewrite processBatch_missing by done. done.
Qed.

(** X9. The guard of [processBatch] tests the credentials untrimmed.
    With an empty API key or group id the run is refused: only the error
    banner changes. Credentials that are non-empty but all white space
    pass the guard: the adapter is invoked for every selected item, with
    an empty [GroupId] in the URL and an empty bearer token. *)
Theorem processBatch_credentials_guard (net : nat → Network) (s : State) :
  (apiKeyState s = [] ∨ groupIdState s = [] →
     processBatch net s = setError (Some (lit "Please provide API Key and Group ID.")) s ∧
     items (processBatch net s) = items s ∧ calls (processBatch net s) = calls s ∧
     store (processBatch net s) = store s ∧ progress (processBatch net s) = progress s) ∧
  (apiKeyState s ≠ [] → groupIdState s ≠ [] →
   Forall (λ c, isWhiteSpace c = true) (apiKeyState s ++ groupIdState s) →
     calls (processBatch net s) = calls s ++ pendingItems s ∧
     ∀ t v, let r := make_request t v {| apiKey := apiKeyState s; groupId := groupIdState s |}
                                  DEFAULT_MODEL in
            url r = lit "https://api.minimax.chat/v1/t2a_v2?GroupId=" ∧
            Authorization r = lit "Bearer ").
Proof.
  split.
  - intros H.
    assert (¬ credentials_given s) as Hc by (intros [? ?]; by destruct H).
    by rewrite processBatch_missing.
  - intros Hk Hg Hws. apply Forall_app in Hws as [Hwk Hwg].
    split; [by apply processBatch_calls|].
    intros t v r. subst r. unfold make_request. cbn [url Authorization apiKey groupId].
    rewrite (proj1 (trim_all_ws _) Hwk), (proj1 (trim_all_ws _) Hwg).
    by rewrite !app_nil_r.
Qed.

Lemma processBatch_credentials_guard_witness :
  items (processBatch net_fail_2_4
           (handleFileUpload 1 (Some (complete five_rows)) (initial [] (lit "group"))))
  = items (handleFileUpload 1 (Some (complete five_rows)) (initial [] (lit "group"))) ∧
  length (calls (processBatch net_fail_2_4
                   (handleFileUpload 1 (Some (complete five_rows)) (initial (lit " ") (lit "  ")))))
  = 5%nat.
Proof.
  split.
  - destruct (processBatch_credentials_guard net_fail_2_4
      (handleFileUpload 1 (Some (complete five_rows)) (initial [] (lit "group")))) as [H _].
    destruct H as (_ & H & _); [by left|exact H].
  - destruct (processBatch_credentials_guard net_fail_2_4
      (handleFileUpload 1 (Some (complete five_rows)) (initial (lit " ") (lit "  ")))) as [_ H].
    destruct H as (H & _).
    + vm_compute. discriminate.
    + vm_compute. discriminate.
    + refine (bool_decide_unpack (Forall _ _) _). vm_compute. exact I.
    + rewrite H. vm_compute. reflexivity.
Defined.

(** X10. The message a failed row shows, by what the network did for
    its invocation: the message of a rejected POST, or "Unknown error"
    when it was not rejected with an [Error]; "API Error: <status>
    <statusText>" for a transport status that is not a success; "Minimax
    Error: <status_msg>" for a non-zero embedded status code; "No audio
    data received in response" when neither audio field is a non-empty
    string. *)
Theorem processBatch_error_messages
    (net : nat → Network) (s : State) (k n : nat) (it : ProcessingItem) :
  credentials_given s → NoDup (id <$> items s) →
  pendingItems s !! k = Some it → items s !! n = Some it →
  let req := make_request (text (row it)) (voice_id (row it))
               {| apiKey := apiKeyState s; groupId := groupIdState s |} DEFAULT_MODEL in
  let shown := (λ i, (status i, errorMessage i)) <$> items (processBatch net s) !! n in
  let network := net (length (calls s) + k)%nat in
  (∀ m, fetch network req = Rejected m →
     shown = Some (error, Some (default (lit "Unknown error") m))) ∧
  (∀ response, fetch network req = Resolved response →
     (ok response = false →
        shown = Some (error, Some (lit "API Error: " ++ decimal (http_status response)
                                   ++ lit " " ++ statusText response))) ∧
     (ok response = true → ∀ j, json response = Resolved j →
        (status_code (base_resp j) ≠ 0%Z →
           shown = Some (error, Some (lit "Minimax Error: " ++ status_msg (base_resp j)))) ∧
        (status_code (base_resp j) = 0%Z →
         truthy (data_audio j) = false → truthy (data_audio_file j) = false →
           shown = Some (error, Some (lit "No audio data received in response"))))).
Proof.
  intros Hc HND Hk Hn req shown network.
  destruct (processBatch_selected net s k n it Hc HND Hk Hn) as (u & Hu & _).
  assert (Hthrow : ∀ err, adapter net s (length (calls s) + k) it = Throw err →
            shown = Some (error, Some (default (lit "Unknown error") (message_of err)))).
  { intros err He. subst shown. rewrite Hu, He. reflexivity. }
  unfold adapter in Hthrow. fold req network in Hthrow.
  split.
  - intros m Hm. apply (Hthrow (Rejection m)). unfold generateSpeech. fold req.
    by rewrite Hm.
  - intros response Hf. split.
    + intros Hok. rewrite (Hthrow (ApiError (http_status response) (statusText response)));
        [done|].
      rewrite (generateSpeech_resolved _ _ _ _ _ _ Hf). unfold handle_response.
      by rewrite Hok.
    + intros Hok j Hj. split.
      * intros Hcode. rewrite (Hthrow (MinimaxError (status_msg (base_resp j)))); [done|].
        rewrite (generateSpeech_resolved _ _ _ _ _ _ Hf), (handle_response_ok _ _ j Hok Hj).
        by destruct (Z.eqb_spec (status_code (base_resp j)) 0).
      * intros Hcode Ha Haf. rewrite (Hthrow NoAudioData); [done|].
        rewrite (generateSpeech_resolved _ _ _ _ _ _ Hf), (handle_response_ok _ _ j Hok Hj).
        by rewrite Hcode, Ha, Haf.
Qed.

Lemma processBatch_error_messages_witness :
  ((λ i, (status i, errorMessage i))
     <$> items (processBatch (λ _, net_rate_limited) (uploaded five_rows)) !! 2%nat)
  = Some (error, Some (lit "Minimax Error: rate limited")).
Proof.
  assert (Hc : credentials_given (uploaded five_rows)) by (split; vm_compute; discriminate).
  assert (HND : NoDup (id <$> items (uploaded five_rows)))
    by (refine (bool_decide_unpack (NoDup _) _); vm_compute; exact I).
  destruct (processBatch_error_messages (λ _, net_rate_limited) (uploaded five_rows) 2 2
              {| id := lit "2-1700000000000"; row := script_row "003" "Neo" "v1" "Where";
                 status := idle; audioUrl := None; errorMessage := None |} Hc HND)
    as [_ H]; [vm_compute; reflexivity..|].
  destruct (H (respond 1002 "rate limited" None None) eq_refl) as [_ H2].
  destruct (H2 eq_refl _ eq_refl) as [H3 _].
  apply H3. vm_compute. discriminate.
Defined.



Section completion.

Variable net : nat → Network.

Local Open Scope nat_scope.

Lemma settled_counts (l : list ProcessingItem) :
  Forall (λ i, status i = success ∨ status i = error) l →
  length (filter (λ i, status i = success) l) + length (filter (λ i, status i = error) l)
  = length l.
Proof.
  intros H. pose proof (status_partition l) as Hp.
  rewrite (filter_none (λ i, status i = idle ∨ status i = loading)) in Hp; [cbn in Hp; lia|].
  eapply Forall_impl; [exact H|]. intros i [Hi|Hi] [Hj|Hj]; congruence.
Qed.

Lemma outcomes_lookup s k it :
  pendingItems s !! k = Some it →
  outcomes net s !! k = Some (adapter net s (length (calls s) + k) it).
Proof. intros H. unfold outcomes. by rewrite list_lookup_imap, H. Qed.

End completion.

(** X12. A run with credentials from a reachable state leaves every
    item [success] or [error]: the stats show nothing pending, and
    succeeded and failed add up to the number of rows. If every
    invocation of the adapter returns, every item is [success] and the
    next run has nothing to select. *)
Theorem processBatch_completes_batch (net : nat → Network) (s : State) :
  reachable net s → credentials_given s →
  let s' := processBatch net s in
  Forall (λ i, status i = success ∨ status i = error) (items s') ∧
  st_pending (stats s') = 0%nat ∧
  (st_success (stats s') + st_error (stats s') = length (items s))%nat ∧
  (Forall (λ o, returned o = true) (outcomes net s) →
     Forall (λ i, status i = success) (items s') ∧
     pendingItems s' = [] ∧
     stats s' = {| st_total := length (items s); st_success := length (items s);
                   st_error := 0; st_pending := 0 |}).
Proof.
  intros Hr Hc s'. subst s'.
  pose proof (reachable_handles_ok net s Hr) as Hok.
  pose proof (ids_NoDup s Hok) as HND.
  pose proof (reachable_item_ok net s Hr) as Hitems.
  assert (Hinv : ∀ n i', items (processBatch net s) !! n = Some i' →
            (status i' = success ∨ status i' = error) ∧
            (Forall (λ o, returned o = true) (outcomes net s) → status i' = success)).
  { intros n i' Hn.
    destruct (processBatch_lookup_inv net s n i' Hc HND Hn)
      as (i & Hi & [[Hp ->]|(Hp & k & u & Hk & ->)]).
    - pose proof (Forall_lookup_1 _ _ _ _ Hitems Hi) as (Hl & _).
      assert (status i = success) as Hs.
      { unfold is_pending in Hp. destruct (status i); done. }
      split; [by left|done].
    - split; [apply settle_status|]. intros Hall.
      pose proof (Forall_lookup_1 _ _ _ _ Hall (outcomes_lookup net s k i Hk)) as Hret.
      by destruct (adapter net s (length (calls s) + k) i). }
  assert (Hall : Forall (λ i, status i = success ∨ status i = error)
                        (items (processBatch net s))).
  { apply Forall_lookup. intros n i' Hn. by apply (Hinv n i'). }
  pose proof (settled_counts _ Hall) as Hcount.
  rewrite processBatch_length in Hcount.
  split; [exact Hall|]. split; [|split; [exact Hcount|]].
  - unfold stats. cbn [st_pending]. rewrite processBatch_length. lia.
  - intros Hret.
    assert (Hsucc : Forall (λ i, status i = success) (items (processBatch net s))).
    { apply Forall_lookup. intros n i' Hn. by apply (Hinv n i'). }
    split; [exact Hsucc|]. split.
    + unfold pendingItems. apply filter_none.
      eapply Forall_impl; [exact Hsucc|]. intros i Hi. unfold is_pending. by rewrite Hi.
    + unfold stats. rewrite processBatch_length.
      rewrite (filter_all (λ i, status i = success)) by exact Hsucc.
      rewrite (filter_none (λ i, status i = error)).
      * rewrite processBatch_length. cbn [length]. f_equal. lia.
      * eapply Forall_impl; [exact Hsucc|]. intros i Hi. by rewrite Hi.
Qed.

Lemma processBatch_completes_batch_witness :
  stats (processBatch (λ _, net_hello) (uploaded five_rows))
  = {| st_total := 5; st_success := 5; st_error := 0; st_pending := 0 |} ∧
  st_pending (stats (processBatch net_fail_2_4 (uploaded five_rows))) = 0%nat.
Proof.
  assert (Hc : credentials_given (uploaded five_rows)) by (split; vm_compute; discriminate).
  split.
  - destruct (processBatch_completes_batch (λ _, net_hello) (uploaded five_rows))
      as (_ & _ & _ & H); [apply reach_upload, reach_initial|exact Hc|].
    destruct H as (_ & _ & ->); [|reflexivity].
    refine (bool_decide_unpack (Forall _ _) _). vm_compute. exact I.
  - destruct (processBatch_completes_batch net_fail_2_4 (uploaded five_rows))
      as (_ & H & _); [apply reach_upload, reach_initial|exact Hc|exact H].
Defined.

(** X13. After [j] iterations of a run, the selected items of rank
    below [j] are settled by their invocation of the adapter and those of
    rank [j] and above are still as they were; the progress shows
    [min j total] of [total]. *)
Theorem run_prefix_settles_in_order
    (net : nat → Network) (s : State) (j k n : nat) (it : ProcessingItem) :
  NoDup (id <$> items s) →
  pendingItems s !! k = Some it → items s !! n = Some it →
  (j ≤ k → items (run_prefix net s j) !! n = Some it)%nat ∧
  (k < j → ∃ u, items (run_prefix net s j) !! n
                = Some (settle (adapter net s (length (calls s) + k) it) u it))%nat ∧
  progress (run_prefix net s j)
  = {| current := Nat.min j (length (pendingItems s)); total := length (pendingItems s) |}.
Proof.
  intros HND Hk Hn. split; [|split].
  - intros Hjk. unfold run_prefix. apply loop_untouched; [done|].
    intros Hin. apply list_elem_of_fmap in Hin as (x & Hx & Hin).
    apply elem_of_take in Hin as (m & Hm & Hmj).
    assert (k = m); [|lia].
    eapply NoDup_ids_lookup; [exact (pendingItems_NoDup s HND)|exact Hk|exact Hm|exact Hx].
  - intros Hkj.
    destruct (run_prefix_selected net s j k n it HND Hkj Hk Hn) as (u & Hu & _). eauto.
  - unfold run_prefix.
    pose proof (loop_progress net (take j (pendingItems s))
      (setProgress (λ _, {| current := 0; total := length (pendingItems s) |})
                   (setIsProcessing true s)) 0%nat) as (_ & Ht & Hcur).
    cbn [fst] in Ht, Hcur.
    destruct (progress _) as [cur tot] eqn:E. cbn in Ht. subst tot. f_equal.
    destruct (take j (pendingItems s)) as [|x l] eqn:El.
    + cbn in E. injection E as <-.
      rewrite <- (length_take (pendingItems s) j), El. done.
    + cbn in Hcur. rewrite Hcur by done.
      rewrite <- (length_take (pendingItems s) j), El. done.
Qed.

Lemma run_prefix_settles_in_order_witness :
  (status <$> items (run_prefix net_fail_2_4 (uploaded five_rows) 2))
  = [success; error; idle; idle; idle] ∧
  progress (run_prefix net_fail_2_4 (uploaded five_rows) 2) = {| current := 2; total := 5 |}.
Proof.
  assert (HND : NoDup (id <$> items (uploaded five_rows)))
    by (refine (bool_decide_unpack (NoDup _) _); vm_compute; exact I).
  split; [vm_compute; reflexivity|].
  destruct (run_prefix_settles_in_order net_fail_2_4 (uploaded five_rows) 2 0 0
              {| id := lit "0-1700000000000"; row := script_row "001" "Neo" "v1" "Hello";
                 status := idle; audioUrl := None; errorMessage := None |} HND)
    as (_ & _ & H); [vm_compute; reflexivity..|].
  rewrite H. vm_compute. reflexivity.
Defined.

(** X14. In every reachable state a row shows a player exactly when it
    is [success]; the [src] of the player is a live object URL that no
    other row uses, and the file name is the shot number, an underscore,
    the character and [".mp3"], the shot number reading [undefined] when
    the column was missing. *)
Theorem player_shown_for_succeeded_rows
    (net : nat → Network) (s : State) (n : nat) (i : ProcessingItem) :
  reachable net s → items s !! n = Some i →
  (is_Some (player i) ↔ status i = success) ∧
  (∀ u f, player i = Some (u, f) →
     is_Some (live (store s) !! u) ∧
     f = template (Shot_Number (row i)) ++ lit "_" ++ Character (row i) ++ lit ".mp3" ∧
     (Shot_Number (row i) = None →
        f = lit "undefined_" ++ Character (row i) ++ lit ".mp3") ∧
     ∀ m j f', items s !! m = Some j → player j = Some (u, f') → m = n).
Proof.
  intros Hr Hn.
  pose proof (reachable_handles_ok net s Hr) as Hok.
  pose proof (Forall_lookup_1 _ _ _ _ (reachable_item_ok net s Hr) Hn) as (_ & Hu & _).
  assert (Hp : ∀ j u f, player j = Some (u, f) → audioUrl j = Some u ∧ f = fileName j).
  { intros j u f. unfold player. case_bool_decide; [|done].
    destruct (audioUrl j); [|done]. by intros [= <- <-]. }
  split.
  - unfold player. case_bool_decide as Hs.
    + split; [done|]. intros _. apply Hu in Hs as [u ->]. by eexists.
    + split; [by intros [? ?]|done].
  - intros u f Hf. apply Hp in Hf as [Ha ->].
    split; [by eapply (handle_live s Hok)|]. split; [done|]. split.
    + intros Hnone. unfold fileName. rewrite Hnone. reflexivity.
    + intros m j f' Hm Hj. apply Hp in Hj as [Hb _].
      by eapply (handle_owner s Hok).
Qed.

Lemma player_shown_for_succeeded_rows_witness :
  (player <$> items (processBatch net_fail_2_4 (uploaded five_rows)) !! 0%nat)
  = Some (Some (0, lit "001_Neo.mp3")) ∧
  is_Some (live (store (processBatch net_fail_2_4 (uploaded five_rows))) !! 0).
Proof.
  assert (Hr : reachable net_fail_2_4 (processBatch net_fail_2_4 (uploaded five_rows)))
    by apply reach_run, reach_upload, reach_initial.
  destruct (items (processBatch net_fail_2_4 (uploaded five_rows)) !! 0%nat) as [i|] eqn:E;
    [|vm_compute in E; discriminate E].
  destruct (player_shown_for_succeeded_rows net_fail_2_4 _ 0%nat i Hr E) as [_ H].
  assert (Hp : player i = Some (0, lit "001_Neo.mp3")).
  { vm_compute in E. injection E as <-. vm_compute. reflexivity. }
  split; [exact (f_equal Some Hp)|]. by destruct (H _ _ Hp) as [Hl _].
Defined.

(** X16. After a run with credentials from a reachable state, an item
    is selected by the next run exactly when it was selected by this one
    and its invocation of the adapter threw. *)
Theorem next_run_selects_exactly_the_failures
    (net : nat → Network) (s : State) (n : nat) (i' : ProcessingItem) :
  reachable net s → credentials_given s →
  items (processBatch net s) !! n = Some i' →
  (is_pending i' = true ↔
   ∃ k it err, items s !! n = Some it ∧ pendingItems s !! k = Some it ∧
               adapter net s (length (calls s) + k)%nat it = Throw err).
Proof.
  intros Hr Hc Hn.
  pose proof (ids_NoDup s (reachable_handles_ok net s Hr)) as HND.
  pose proof (reachable_item_ok net s Hr) as Hitems.
  destruct (processBatch_lookup_inv net s n i' Hc HND Hn)
    as (i & Hi & [[Hp ->]|(Hp & k & u & Hk & ->)]).
  - split; [congruence|]. intros (k & it & err & Hit & Hk & _).
    rewrite Hi in Hit. injection Hit as <-.
    by destruct (pendingItems_lookup s k i Hk) as [Hp' _].
  - destruct (adapter net s (length (calls s) + k) i) as [blob|err] eqn:Eo; cbn.
    + split; [done|]. intros (k' & it & err & Hit & Hk' & Ht).
      rewrite Hi in Hit. injection Hit as <-.
      assert (k' = k) as ->; [|congruence].
      eapply NoDup_lookup; [|exact Hk'|exact Hk].
      eapply NoDup_fmap_1. exact (pendingItems_NoDup s HND).
    + split; [|done]. intros _. by exists k, i, err.
Qed.

Lemma next_run_selects_exactly_the_failures_witness :
  (Shot_Number ∘ row <$> pendingItems (processBatch net_fail_2_4 (uploaded five_rows)))
  = [Some (lit "002"); Some (lit "004")] ∧
  ∃ i', items (processBatch net_fail_2_4 (uploaded five_rows)) !! 3%nat = Some i' ∧
        is_pending i' = true.
Proof.
  split; [vm_compute; reflexivity|].
  assert (Hc : credentials_given (uploaded five_rows)) by (split; vm_compute; discriminate).
  destruct (items (processBatch net_fail_2_4 (uploaded five_rows)) !! 3%nat) as [i'|] eqn:E;
    [|vm_compute in E; discriminate E].
  exists i'. split; [done|].
  apply (next_run_selects_exactly_the_failures net_fail_2_4 (uploaded five_rows) 3 i');
    [apply reach_upload, reach_initial|exact Hc|exact E|].
  exists 3%nat, {| id := lit "3-1700000000000"; row := script_row "004" "Morpheus" "v3" "Welcome";
                   status := idle; audioUrl := None; errorMessage := None |},
         (MinimaxError (lit "rate limited")).
  repeat split; vm_compute; reflexivity.
Defined.
